(** * calculator.py: the operation table and the interactive buffer engine

    A shallow embedding of [src/calculator.py].  The script has two parts
    with behaviour of their own:

    - the operation table ([add], [sub], [mul], [div], [powr], [mod]),
      called by the one-shot command line on two [float] operands;
    - the body of the read loop of [interactive_prompt], which owns the
      [display] string and the [history] list and interprets one stripped
      input line [cmd] at a time.

    Printing, colours, the spinner and the other animations have no effect
    on [display] or [history] and are left out.

    The host language is modelled as far as the script uses it:
    - a Python [str] is the list of its code points;
    - a Python [float] is an IEEE 754 binary64 number, [spec_float] of the
      standard library with [prec = 53] and [emax = 1024];
    - a Python [int] is a [Z];
    - exceptions are the [Raise] results of a small error monad. *)

From Stdlib Require Import Ascii String.
From Stdlib Require Import ZArith NArith List Bool Lia.
From Stdlib Require Import DecimalString DecimalPos DecimalN DecimalZ.
From Stdlib Require Import SpecFloat.
Import ListNotations.

Local Open Scope Z_scope.

(* ================================================================== *)
(** * Python strings *)
(* ================================================================== *)

(** A string is the sequence of its Unicode code points: [len], slicing
    and [replace] all count code points. *)
Definition pystr := list N.

(** The code points of an ASCII literal. *)
Definition str (s : string) : pystr :=
  map N_of_ascii (list_ascii_of_string s).

(** The glyphs of the script that are not ASCII. *)
Definition cp_times : N := 215.    (* × *)
Definition cp_divide : N := 247.   (* ÷ *)
Definition cp_pi : N := 960.       (* π *)
Definition cp_sqrt : N := 8730.    (* √ *)
Definition cp_sup2 : N := 178.     (* ² *)
Definition cp_sup3 : N := 179.     (* ³ *)

Fixpoint pystr_eqb (a b : pystr) : bool :=
  match a, b with
  | [], [] => true
  | x :: a', y :: b' => N.eqb x y && pystr_eqb a' b'
  | _, _ => false
  end.

(** [c in s] for a one-character [c]. *)
Definition contains (c : N) (s : pystr) : bool := existsb (N.eqb c) s.

(** [cmd in [t1, t2, ...]] *)
Definition mem (s : pystr) (l : list pystr) : bool := existsb (pystr_eqb s) l.

(** [s.replace(old, new)] where [old] and [new] are one character long. *)
Definition replace (old new : N) (s : pystr) : pystr :=
  map (fun c => if N.eqb c old then new else c) s.

(** [s[:-1]] *)
Definition drop_last (s : pystr) : pystr := removelast s.

(** [s.lower()].  The script compares the lowered line only with words made
    of ASCII letters, [^], [2], [3], [²] and [³]; no character outside ASCII
    lowers to one of these, so lowering the ASCII capitals decides the same
    comparisons as the Unicode lowering. *)
Definition lower_cp (c : N) : N :=
  if (65 <=? c)%N && (c <=? 90)%N then (c + 32)%N else c.

Definition lower (s : pystr) : pystr := map lower_cp s.

Definition is_ascii_digit (c : N) : bool := (48 <=? c)%N && (c <=? 57)%N.

Definition is_ascii_alpha (c : N) : bool :=
  ((65 <=? c)%N && (c <=? 90)%N) || ((97 <=? c)%N && (c <=? 122)%N)
  || N.eqb c 95.

(* ================================================================== *)
(** * Exceptions *)
(* ================================================================== *)

Inductive exn : Type :=
| ZeroDivisionError
| SyntaxError
| NameError
| TypeError
| ValueError
| OverflowError.

Inductive result (A : Type) : Type :=
| Ok (a : A)
| Raise (e : exn).

Arguments Ok {A} a.
Arguments Raise {A} e.

Definition bind {A B} (r : result A) (k : A -> result B) : result B :=
  match r with
  | Ok a => k a
  | Raise e => Raise e
  end.

Notation "x <- c ;; k" := (bind c (fun x => k))
  (at level 61, c at next level, right associativity).

(** [try: body  except: handler] for a body that yields a value. *)
Definition try_except {A} (body : result A) (handler : exn -> A) : A :=
  match body with
  | Ok a => a
  | Raise e => handler e
  end.

(* ================================================================== *)
(** * Python numbers *)
(* ================================================================== *)

Definition float := spec_float.

Definition prec : Z := 53.
Definition emax : Z := 1024.

Definition fadd : float -> float -> float := SFadd prec emax.
Definition fsub : float -> float -> float := SFsub prec emax.
Definition fmul : float -> float -> float := SFmul prec emax.
Definition fdiv : float -> float -> float := SFdiv prec emax.
Definition fsqrt : float -> float := SFsqrt prec emax.
Definition fneg : float -> float := SFopp.

Definition is_zero (x : float) : bool :=
  match x with S754_zero _ => true | _ => false end.

Definition is_nan (x : float) : bool :=
  match x with S754_nan => true | _ => false end.

Definition is_inf (x : float) : bool :=
  match x with S754_infinity _ => true | _ => false end.

Definition is_finite (x : float) : bool :=
  match x with S754_zero _ | S754_finite _ _ _ => true | _ => false end.

(** The sign bit; [false] for a NaN. *)
Definition sign_bit (x : float) : bool :=
  match x with
  | S754_zero s | S754_infinity s | S754_finite s _ _ => s
  | S754_nan => false
  end.

(** [x < 0] *)
Definition is_negative (x : float) : bool :=
  match x with
  | S754_infinity s | S754_finite s _ _ => s
  | _ => false
  end.

(** Same float, bit for bit. *)
Definition float_same (x y : float) : bool :=
  match x, y with
  | S754_zero s, S754_zero t => Bool.eqb s t
  | S754_infinity s, S754_infinity t => Bool.eqb s t
  | S754_nan, S754_nan => true
  | S754_finite s m e, S754_finite t n f =>
      Bool.eqb s t && Pos.eqb m n && Z.eqb e f
  | _, _ => false
  end.

(** ** Conversions *)

(** The float nearest to the fraction [n / d], sign [neg]: the division of
    the standard library rounds the exact quotient of the two mantissas to
    nearest, ties to even. *)
Definition float_of_ratio (neg : bool) (n d : positive) : float :=
  SFdiv prec emax (S754_finite neg n 0) (S754_finite false d 0).

(** The float nearest to [m * 10 ^ e10], sign [neg]: what [strtod] gives for
    a decimal literal. *)
Definition float_of_decimal (neg : bool) (m : N) (e10 : Z) : float :=
  match m with
  | N0 => S754_zero neg
  | Npos p =>
      if 0 <=? e10
      then binary_round prec emax neg (p * Z.to_pos (10 ^ e10)) 0
      else float_of_ratio neg p (Z.to_pos (10 ^ (- e10)))
  end.

(** [float(z)] for an [int]: nearest float, [OverflowError] beyond the
    largest one. *)
Definition float_of_int (z : Z) : result float :=
  let f := binary_normalize prec emax z 0 false in
  if is_inf f then Raise OverflowError else Ok f.

(** The exact value of a finite non-zero float, [m * 2 ^ e], as a fraction
    of two positive integers. *)
Definition frac_of (m : positive) (e : Z) : Z * Z :=
  if 0 <=? e then (Zpos m * 2 ^ e, 1) else (Zpos m, 2 ^ (- e)).

(** [(a / b) * 10 ^ k] as a fraction. *)
Definition scale10 (ab : Z * Z) (k : Z) : Z * Z :=
  let '(a, b) := ab in
  if 0 <=? k then (a * 10 ^ k, b) else (a, b * 10 ^ (- k)).

(** The integer nearest to [num / den], ties to even. *)
Definition round_half_even (nd : Z * Z) : Z :=
  let '(num, den) := nd in
  let q := num / den in
  let r := num mod den in
  match 2 * r ?= den with
  | Lt => q
  | Eq => if Z.even q then q else q + 1
  | Gt => q + 1
  end.

(** [x.is_integer()] *)
Definition is_integer (x : float) : bool :=
  match x with
  | S754_zero _ => true
  | S754_finite _ m e => (0 <=? e) || (Zpos m mod 2 ^ (- e) =? 0)
  | _ => false
  end.

(** [int(x)], truncating; [OverflowError] on an infinity and [ValueError]
    on a NaN. *)
Definition int_of_float (x : float) : result Z :=
  match x with
  | S754_zero _ => Ok 0
  | S754_finite s m e =>
      let '(a, b) := frac_of m e in
      Ok (cond_Zopp s (a / b))
  | S754_infinity _ => Raise OverflowError
  | S754_nan => Raise ValueError
  end.

(** ** [str] of an [int] *)

Fixpoint digits_of_uint (u : Decimal.uint) : pystr :=
  match u with
  | Decimal.Nil => []
  | Decimal.D0 u => 48%N :: digits_of_uint u
  | Decimal.D1 u => 49%N :: digits_of_uint u
  | Decimal.D2 u => 50%N :: digits_of_uint u
  | Decimal.D3 u => 51%N :: digits_of_uint u
  | Decimal.D4 u => 52%N :: digits_of_uint u
  | Decimal.D5 u => 53%N :: digits_of_uint u
  | Decimal.D6 u => 54%N :: digits_of_uint u
  | Decimal.D7 u => 55%N :: digits_of_uint u
  | Decimal.D8 u => 56%N :: digits_of_uint u
  | Decimal.D9 u => 57%N :: digits_of_uint u
  end.

Definition str_of_N (n : N) : pystr := digits_of_uint (N.to_uint n).

(** [str(z)]: the decimal digits, after a minus sign when negative. *)
Definition str_of_int (z : Z) : pystr :=
  if z <? 0 then 45%N :: str_of_N (Z.abs_N z) else str_of_N (Z.to_N z).

(** ** [repr] of a [float]

    CPython prints the shortest digit string that reads back as the same
    float, the nearest to the exact value among the shortest ones, in the
    layout of format code ['r']: exponent form when the decimal point would
    fall before the fourth leading zero or after the sixteenth digit, and
    at least one digit after the point otherwise. *)

(** The position of the decimal point: [10 ^ (decpt - 1) <= a / b < 10 ^
    decpt].  The smallest float is above [10 ^ -324], so after scaling by
    [10 ^ 400] the integer part has all the digits that count. *)
Definition decpt_of (ab : Z * Z) : Z :=
  let '(a, b) := scale10 ab 400 in
  Z.of_nat (length (str_of_N (Z.to_N (a / b)))) - 400.

Definition round_trips (m : positive) (e : Z) (d e10 : Z) : bool :=
  float_same (float_of_decimal false (Z.to_N d) e10) (S754_finite false m e).

(** The [n]-digit decimal that reads back as [m * 2 ^ e], if there is one:
    only the two neighbours of the exact value can. *)
Definition shortest_at (m : positive) (e : Z) (decpt n : Z) : option Z :=
  let '(num, den) := scale10 (frac_of m e) (n - decpt) in
  let lo := num / den in
  let hi := lo + 1 in
  match round_trips m e lo (decpt - n), round_trips m e hi (decpt - n) with
  | true, true => Some (round_half_even (num, den))
  | true, false => Some lo
  | false, true => Some hi
  | false, false => None
  end.

Fixpoint shortest_from (m : positive) (e : Z) (decpt : Z) (ns : list Z)
  : Z * Z :=
  match ns with
  | [] => (round_half_even (scale10 (frac_of m e) (17 - decpt)), 17)
  | n :: ns' =>
      match shortest_at m e decpt n with
      | Some d => (d, n)
      | None => shortest_from m e decpt ns'
      end
  end.

Fixpoint drop_zeros (d : pystr) : pystr :=
  match d with
  | c :: d' => if N.eqb c 48 then drop_zeros d' else d
  | [] => []
  end.

Definition strip_trailing_zeros (d : pystr) : pystr :=
  rev (drop_zeros (rev d)).

(** The digits and the decimal point position of the shortest form, as
    [dtoa] reports them: the value is [0.d1 d2 ... * 10 ^ decpt]. *)
Definition shortest_digits (m : positive) (e : Z) : pystr * Z :=
  let decpt := decpt_of (frac_of m e) in
  let '(d, n) :=
    shortest_from m e decpt [1; 2; 3; 4; 5; 6; 7; 8; 9; 10; 11; 12; 13; 14;
                             15; 16; 17] in
  let ds := str_of_N (Z.to_N d) in
  (strip_trailing_zeros ds, decpt - n + Z.of_nat (length ds)).

Definition zeros (k : Z) : pystr := repeat 48%N (Z.to_nat k).

(** The exponent as [%+.02d] prints it. *)
Definition exp_text (x : Z) : pystr :=
  let d := str_of_N (Z.abs_N x) in
  (if x <? 0 then 45%N else 43%N)
    :: (if (length d <? 2)%nat then 48%N :: d else d).

Definition format_repr (digits : pystr) (decpt : Z) : pystr :=
  let len := Z.of_nat (length digits) in
  if (decpt <=? -4) || (16 <? decpt) then
    firstn 1 digits
      ++ (if 1 <? len then 46%N :: skipn 1 digits else [])
      ++ 101%N :: exp_text (decpt - 1)
  else if decpt <=? 0 then
    str "0." ++ zeros (- decpt) ++ digits
  else if decpt <? len then
    firstn (Z.to_nat decpt) digits ++ 46%N :: skipn (Z.to_nat decpt) digits
  else
    digits ++ zeros (decpt - len) ++ str ".0".

Definition with_sign (s : bool) (t : pystr) : pystr :=
  if s then 45%N :: t else t.

(** [str(x)] and [repr(x)] for a [float]. *)
Definition str_of_float (x : float) : pystr :=
  match x with
  | S754_nan => str "nan"
  | S754_infinity s => with_sign s (str "inf")
  | S754_zero s => with_sign s (format_repr (str "0") 1)
  | S754_finite s m e =>
      let '(ds, decpt) := shortest_digits m e in
      with_sign s (format_repr ds decpt)
  end.

(** ** [round(x, ndigits)] for a [float]

    CPython rounds the exact binary value to [ndigits] decimals, ties to
    even, and reads the decimal back; NaN and the infinities round to
    themselves. *)
Definition round_float (x : float) (ndigits : Z) : result float :=
  match x with
  | S754_finite s m e =>
      if 323 <? ndigits then Ok x
      else if ndigits <? -308 then Ok (S754_zero s)
      else
        let n := round_half_even (scale10 (frac_of m e) ndigits) in
        let r := float_of_decimal s (Z.to_N n) (- ndigits) in
        if is_inf r then Raise OverflowError else Ok r
  | _ => Ok x
  end.

(** ** The float remainder [v % w]

    [fmod] is exact and takes the sign of its first argument; CPython then
    moves a non-zero remainder to the side of the divisor. *)
Definition fmod (x y : float) : float :=
  match x, y with
  | S754_nan, _ | _, S754_nan => S754_nan
  | S754_infinity _, _ => S754_nan
  | _, S754_zero _ => S754_nan
  | _, S754_infinity _ => x
  | S754_zero _, _ => x
  | S754_finite sx mx ex, S754_finite _ my ey =>
      let ez := Z.min ex ey in
      let a := Zpos mx * 2 ^ (ex - ez) in
      let b := Zpos my * 2 ^ (ey - ez) in
      binary_normalize prec emax (cond_Zopp sx (a mod b)) ez sx
  end.

Definition float_rem (v w : float) : result float :=
  if is_zero w then Raise ZeroDivisionError
  else
    let m := fmod v w in
    if negb (is_zero m) then
      if xorb (is_negative w) (is_negative m) then Ok (fadd m w) else Ok m
    else Ok (S754_zero (sign_bit w)).

(** [math.pi], the float nearest to π. *)
Definition math_pi : float := S754_finite false 7074237752028440 (-51).

(* ================================================================== *)
(** * Expressions: what [eval] does with the text of the display *)
(* ================================================================== *)

(** [eval] is the host's; its model covers the expressions the display can
    hold: decimal integer and float literals, the operators [+ - * /] in
    their unary and binary use, parentheses, the empty tuple [()] and
    names.  The letters of a display come only from ["Error"], ["inf"],
    ["nan"], the exponent of a float and the operator [x], so that no name
    in it is bound: a name raises [NameError].  A call, an attribute
    reference or a character outside this alphabet raises in Python too,
    here always as [SyntaxError]; the script catches every exception of
    [eval] alike.  Digit separators and the prefixed or imaginary literals
    cannot be typed and are not literals here.  The interpreter's resource
    limits are not modelled. *)

Inductive value : Type :=
| VInt (z : Z)
| VFloat (f : float)
| VTuple.                         (* the empty tuple [()] *)

Inductive token : Type :=
| TNum (v : value)
| TName (n : pystr)
| TPlus | TMinus | TStar | TSlash
| TLPar | TRPar.

(** ** Numeric literals *)

Fixpoint span_digits (s : pystr) : pystr * pystr :=
  match s with
  | c :: s' =>
      if is_ascii_digit c
      then let '(d, r) := span_digits s' in (c :: d, r)
      else ([], s)
  | [] => ([], [])
  end.

Definition N_of_digits (d : pystr) : N :=
  fold_left (fun acc c => (acc * 10 + (c - 48))%N) d 0%N.

Definition is_e (c : N) : bool := N.eqb c 101 || N.eqb c 69.
Definition is_sign (c : N) : bool := N.eqb c 43 || N.eqb c 45.

(** [decinteger]: no leading zero unless every digit is a zero. *)
Definition valid_decinteger (d : pystr) : bool :=
  match d with
  | [] => false
  | c :: _ => negb (N.eqb c 48) || forallb (N.eqb 48) d
  end.

(** The exponent part after the mantissa: nothing, or [e], an optional
    sign and at least one digit, up to the end of the word. *)
Definition parse_exponent (s : pystr) : option (option Z) :=
  match s with
  | [] => Some None
  | c :: s1 =>
      if is_e c then
        let '(neg, s2) :=
          match s1 with
          | g :: s2 => if is_sign g then (N.eqb g 45, s2) else (false, s1)
          | [] => (false, s1)
          end in
        let '(d, rest) := span_digits s2 in
        match d, rest with
        | _ :: _, [] =>
            Some (Some (cond_Zopp neg (Z.of_N (N_of_digits d))))
        | _, _ => None
        end
      else None
  end.

Definition parse_number (w : pystr) : result value :=
  let '(ip, s1) := span_digits w in
  let '(dot, fp, s2) :=
    match s1 with
    | c :: s1' =>
        if N.eqb c 46
        then let '(fp, s2) := span_digits s1' in (true, fp, s2)
        else (false, [], s1)
    | [] => (false, [], s1)
    end in
  match ip ++ fp, parse_exponent s2 with
  | [], _ => Raise SyntaxError
  | _, None => Raise SyntaxError
  | _, Some None =>
      if dot
      then Ok (VFloat (float_of_decimal false (N_of_digits (ip ++ fp))
                         (- Z.of_nat (length fp))))
      else if valid_decinteger ip
           then Ok (VInt (Z.of_N (N_of_digits ip)))
           else Raise SyntaxError
  | _, Some (Some x) =>
      Ok (VFloat (float_of_decimal false (N_of_digits (ip ++ fp))
                    (x - Z.of_nat (length fp))))
  end.

(** ** The tokenizer *)

Definition keywords : list pystr :=
  map str ["and"; "as"; "assert"; "async"; "await"; "break"; "class";
           "continue"; "def"; "del"; "elif"; "else"; "except"; "finally";
           "for"; "from"; "global"; "if"; "import"; "in"; "is"; "lambda";
           "nonlocal"; "not"; "or"; "pass"; "raise"; "return"; "try";
           "while"; "with"; "yield"]%string.

(** The word being read, most recent character first. *)
Inductive word : Type :=
| WNone
| WNum (t : pystr)
| WName (t : pystr).

(** Does [c] go on with the word?  A sign does right after the [e] of a
    number. *)
Definition continues (w : word) (c : N) : bool :=
  match w with
  | WNone => false
  | WNum t =>
      is_ascii_digit c || is_ascii_alpha c || N.eqb c 46
      || (is_sign c && match t with p :: _ => is_e p | [] => false end)
  | WName _ => is_ascii_digit c || is_ascii_alpha c
  end.

Definition extend (w : word) (c : N) : word :=
  match w with
  | WNone => WNone
  | WNum t => WNum (c :: t)
  | WName t => WName (c :: t)
  end.

Definition finish (w : word) : result (list token) :=
  match w with
  | WNone => Ok []
  | WNum t => v <- parse_number (rev t) ;; Ok [TNum v]
  | WName t =>
      if mem (rev t) keywords then Raise SyntaxError
      else Ok [TName (rev t)]
  end.

Inductive start : Type :=
| StSkip
| StWord (w : word)
| StTok (t : token)
| StBad.

Definition start_of (c : N) : start :=
  if N.eqb c 32 || N.eqb c 9 then StSkip
  else if is_ascii_digit c || N.eqb c 46 then StWord (WNum [c])
  else if is_ascii_alpha c then StWord (WName [c])
  else if N.eqb c 43 then StTok TPlus
  else if N.eqb c 45 then StTok TMinus
  else if N.eqb c 42 then StTok TStar
  else if N.eqb c 47 then StTok TSlash
  else if N.eqb c 40 then StTok TLPar
  else if N.eqb c 41 then StTok TRPar
  else StBad.

Fixpoint lex (w : word) (s : pystr) : result (list token) :=
  match s with
  | [] => finish w
  | c :: s' =>
      if continues w c then lex (extend w c) s'
      else
        ts1 <- finish w ;;
        match start_of c with
        | StSkip => ts2 <- lex WNone s' ;; Ok (ts1 ++ ts2)
        | StWord w' => ts2 <- lex w' s' ;; Ok (ts1 ++ ts2)
        | StTok t => ts2 <- lex WNone s' ;; Ok (ts1 ++ t :: ts2)
        | StBad => Raise SyntaxError
        end
  end.

(** ** The parser

    Operator precedence parsing with two stacks; one token is read at each
    step.  Unary [+] and [-] bind tighter than [*] and [/], which bind
    tighter than binary [+] and [-]; binary operators group to the left. *)

Inductive binop : Type := Add | Sub | Mul | Div.
Inductive unop : Type := UPos | UNeg.

Inductive expr : Type :=
| ENum (v : value)
| EName (n : pystr)
| ETuple
| EUn (u : unop) (e : expr)
| EBin (b : binop) (l r : expr).

Inductive opitem : Type :=
| OLPar
| OUn (u : unop)
| OBin (b : binop).

Definition prec_of (o : opitem) : nat :=
  match o with
  | OLPar => 0
  | OBin Add | OBin Sub => 1
  | OBin Mul | OBin Div => 2
  | OUn _ => 3
  end.

Record pstate : Type := mk_pstate {
  operands : list expr;
  pending : list opitem;
  want_operand : bool
}.

Definition reduce1 (o : opitem) (es : list expr) : option (list expr) :=
  match o, es with
  | OUn u, e :: es' => Some (EUn u e :: es')
  | OBin b, r :: l :: es' => Some (EBin b l r :: es')
  | _, _ => None
  end.

(** Apply the pending operators that bind at least as tightly as [p]. *)
Fixpoint reduce_while (p : nat) (os : list opitem) (es : list expr)
  : option (list opitem * list expr) :=
  match os with
  | o :: os' =>
      if (p <=? prec_of o)%nat
      then match reduce1 o es with
           | Some es' => reduce_while p os' es'
           | None => None
           end
      else Some (os, es)
  | [] => Some (os, es)
  end.

Definition push_binop (b : binop) (st : pstate) : result pstate :=
  match reduce_while (prec_of (OBin b)) (pending st) (operands st) with
  | Some (os, es) => Ok (mk_pstate es (OBin b :: os) true)
  | None => Raise SyntaxError
  end.

Definition pstep (st : pstate) (t : token) : result pstate :=
  if want_operand st then
    match t with
    | TNum v => Ok (mk_pstate (ENum v :: operands st) (pending st) false)
    | TName n => Ok (mk_pstate (EName n :: operands st) (pending st) false)
    | TLPar => Ok (mk_pstate (operands st) (OLPar :: pending st) true)
    | TPlus => Ok (mk_pstate (operands st) (OUn UPos :: pending st) true)
    | TMinus => Ok (mk_pstate (operands st) (OUn UNeg :: pending st) true)
    | TRPar =>
        match pending st with
        | OLPar :: os => Ok (mk_pstate (ETuple :: operands st) os false)
        | _ => Raise SyntaxError
        end
    | TStar | TSlash => Raise SyntaxError
    end
  else
    match t with
    | TPlus => push_binop Add st
    | TMinus => push_binop Sub st
    | TStar => push_binop Mul st
    | TSlash => push_binop Div st
    | TRPar =>
        match reduce_while 1 (pending st) (operands st) with
        | Some (OLPar :: os, es) => Ok (mk_pstate es os false)
        | _ => Raise SyntaxError
        end
    | TNum _ | TName _ | TLPar => Raise SyntaxError
    end.

Fixpoint psteps (st : pstate) (ts : list token) : result pstate :=
  match ts with
  | [] => Ok st
  | t :: ts' => st' <- pstep st t ;; psteps st' ts'
  end.

Definition pfinish (st : pstate) : result expr :=
  if want_operand st then Raise SyntaxError
  else
    match reduce_while 1 (pending st) (operands st) with
    | Some ([], [e]) => Ok e
    | _ => Raise SyntaxError
    end.

Definition parse (ts : list token) : result expr :=
  st <- psteps (mk_pstate [] [] true) ts ;; pfinish st.

(** ** Evaluation *)

(** [float(v)] *)
Definition float_of_value (v : value) : result float :=
  match v with
  | VInt z => float_of_int z
  | VFloat f => Ok f
  | VTuple => Raise TypeError
  end.

(** [a / b] on two [int]s: the float nearest to the exact quotient. *)
Definition int_truediv (a b : Z) : result float :=
  if b =? 0 then Raise ZeroDivisionError
  else
    let neg := xorb (a <? 0) (b <? 0) in
    if a =? 0 then Ok (S754_zero neg)
    else
      let f := float_of_ratio neg (Z.to_pos (Z.abs a)) (Z.to_pos (Z.abs b)) in
      if is_inf f then Raise OverflowError else Ok f.

(** [a / b] when one operand at least is a [float]. *)
Definition float_truediv (a b : float) : result float :=
  if is_zero b then Raise ZeroDivisionError else Ok (fdiv a b).

Definition arith (fi : Z -> Z -> Z) (ff : float -> float -> float)
    (l r : value) : result value :=
  match l, r with
  | VInt a, VInt b => Ok (VInt (fi a b))
  | VTuple, _ | _, VTuple => Raise TypeError
  | _, _ =>
      a <- float_of_value l ;;
      b <- float_of_value r ;;
      Ok (VFloat (ff a b))
  end.

Definition eval_binop (b : binop) (l r : value) : result value :=
  match b with
  | Add =>
      match l, r with
      | VTuple, VTuple => Ok VTuple
      | _, _ => arith Z.add fadd l r
      end
  | Sub => arith Z.sub fsub l r
  | Mul =>
      match l, r with
      | VTuple, VInt _ | VInt _, VTuple => Ok VTuple
      | _, _ => arith Z.mul fmul l r
      end
  | Div =>
      match l, r with
      | VInt a, VInt b => f <- int_truediv a b ;; Ok (VFloat f)
      | VTuple, _ | _, VTuple => Raise TypeError
      | _, _ =>
          a <- float_of_value l ;;
          b <- float_of_value r ;;
          f <- float_truediv a b ;;
          Ok (VFloat f)
      end
  end.

Definition eval_unop (u : unop) (v : value) : result value :=
  match v with
  | VTuple => Raise TypeError
  | VInt z => Ok (VInt (match u with UPos => z | UNeg => - z end))
  | VFloat f => Ok (VFloat (match u with UPos => f | UNeg => fneg f end))
  end.

Fixpoint eval_expr (e : expr) : result value :=
  match e with
  | ENum v => Ok v
  | EName _ => Raise NameError
  | ETuple => Ok VTuple
  | EUn u e1 => v <- eval_expr e1 ;; eval_unop u v
  | EBin b l r =>
      x <- eval_expr l ;;
      y <- eval_expr r ;;
      eval_binop b x y
  end.

(** [eval(s)]: a syntax error anywhere in [s] comes before any
    evaluation. *)
Definition py_eval (s : pystr) : result value :=
  ts <- lex WNone s ;;
  e <- parse ts ;;
  eval_expr e.

(* ================================================================== *)
(** * The operation table *)
(* ================================================================== *)

(** The command line parses both operands with [type=float]. *)

Definition add (a b : float) : result float := Ok (fadd a b).

Definition sub (a b : float) : result float := Ok (fsub a b).

Definition mul (a b : float) : result float := Ok (fmul a b).

(** [b == 0] compares the float with the [int] zero: true of both zeros,
    false of a NaN. *)
Definition div (a b : float) : result float :=
  if is_zero b then Raise ZeroDivisionError
  else float_truediv a b.

(** [mod] of the script; [mod] is a reserved word of the arithmetic
    notations here. *)
Definition mod_ (a b : float) : result float :=
  if is_zero b then Raise ZeroDivisionError
  else float_rem a b.

(* ================================================================== *)
(** * The interactive buffer engine *)
(* ================================================================== *)

Record state : Type := mk_state {
  display : pystr;
  history : list pystr
}.

Definition initial : state := mk_state (str "0") [].

Definition set_display (s : state) (d : pystr) : state :=
  mk_state d (history s).

(** What one turn of the [while True] loop does: [continue] (or fall to the
    end of the body) with a state, or [return]. *)
Inductive outcome : Type :=
| Continue (s : state)
| Return.

Definition error_text : pystr := str "Error".

(** [display.replace('×', '*').replace('÷', '/')] *)
Definition canonical (d : pystr) : pystr :=
  replace cp_divide 47 (replace cp_times 42 d).

(** [float(eval(display.replace(...)))] *)
Definition eval_float (d : pystr) : result float :=
  v <- py_eval (canonical d) ;; float_of_value v.

(** [math.sqrt]: [ValueError] when the result is a NaN that the argument
    was not. *)
Definition math_sqrt (x : float) : result float :=
  let r := fsqrt x in
  if is_nan r && negb (is_nan x) then Raise ValueError else Ok r.

(** [math.radians] multiplies by the constant [pi / 180]. *)
Definition math_radians (x : float) : float :=
  fmul x (fdiv math_pi (float_of_decimal false 180 0)).

(** [round(result, 8)] in the branch of [=], where [result] is whatever
    [eval] gave: an [int] rounds to itself. *)
Definition round_value (v : value) (ndigits : Z) : result value :=
  match v with
  | VInt z => Ok (VInt z)
  | VFloat f => r <- round_float f ndigits ;; Ok (VFloat r)
  | VTuple => Raise TypeError
  end.

Definition str_of_value (v : value) : pystr :=
  match v with
  | VInt z => str_of_int z
  | VFloat f => str_of_float f
  | VTuple => str "()"
  end.

(** The text [=] puts on the display for the value of the expression. *)
Definition format_result (v : value) : result pystr :=
  match v with
  | VFloat f =>
      if is_integer f
      then z <- int_of_float f ;; Ok (str_of_int z)
      else r <- round_value v 8 ;; Ok (str_of_value r)
  | _ => r <- round_value v 8 ;; Ok (str_of_value r)
  end.

(** ** The one-shot command line

    [main] with an operation and two operands: the keys of [OPS] are the
    choices of the parser, the operands are floats.  What it prints is
    modelled by its content, without the colours. *)
Inductive operation : Type :=
| op_add | op_sub | op_mul | op_div | op_pow | op_mod.

(** The [op_symbol] table of [main]. *)
Definition op_symbol (o : operation) : pystr :=
  match o with
  | op_add => str "+"
  | op_sub => str "-"
  | op_mul => [cp_times]
  | op_div => [cp_divide]
  | op_pow => str "^"
  | op_mod => str "mod"
  end.

Inductive report : Type :=
| CannotDivideByZero                    (* Error: Cannot divide by zero *)
| OtherError (e : exn)                  (* Error: {e} *)
| Answer (a sym b result : pystr).      (* {a} {sym} {b} = {result} *)

Section Engine.

(** The host's tables and library functions that are not modelled:
    which characters beyond ASCII [str.isdigit] accepts, the
    transcendental functions of [math], and the float power. *)
Variable unicode_digit : N -> bool.
Variables math_sin math_cos math_tan math_log10 math_log
  : float -> result float.
Variable float_pow : float -> float -> result float.

(** [powr] of the operation table.  A negative base with a fractional
    exponent gives a complex number in Python, which [float_pow] does not
    describe: the facts about [main] below leave [op_pow] out. *)
Definition powr (a b : float) : result float := float_pow a b.

(** One character of [str.isdigit]: the ASCII digits; the glyphs of the
    script, which are symbols and a letter; the host's table beyond. *)
Definition isdigit_cp (c : N) : bool :=
  if (c <? 128)%N then is_ascii_digit c
  else if contains c [cp_times; cp_divide; cp_pi; cp_sqrt] then false
  else unicode_digit c.

(** [cmd.isdigit()]: every character is a digit and there is one. *)
Definition isdigit (cmd : pystr) : bool :=
  match cmd with
  | [] => false
  | _ => forallb isdigit_cp cmd
  end.

(** The body shared by the function keys and the power shortcuts:
    evaluate, apply, round to 8 decimals and print; [except:] puts
    ["Error"]. *)
Definition apply_function (f : float -> result float) (d : pystr)
  : pystr :=
  try_except
    (val <- eval_float d ;;
     r <- f val ;;
     r8 <- round_float r 8 ;;
     Ok (str_of_float r8))
    (fun _ => error_text).

(** The [%] key: [str(val / 100)]. *)
Definition apply_percent (d : pystr) : pystr :=
  try_except
    (val <- eval_float d ;;
     h <- float_of_int 100 ;;
     q <- float_truediv val h ;;
     Ok (str_of_float q))
    (fun _ => error_text).

(** The [=] key. *)
Definition apply_equals (s : state) : state :=
  try_except
    (v <- py_eval (canonical (display s)) ;;
     d <- format_result v ;;
     Ok (mk_state d (history s ++ [d])))
    (fun _ => set_display s error_text).

Definition operators : list pystr :=
  [str "+"; str "-"; str "*"; str "x"; [cp_times]; str "/"; [cp_divide]].

(** The [if]/[elif] chain inside the outer [try]. *)
Definition dispatch (s : state) (cmd : pystr) : result state :=
  let d := display s in
  let cmd_lower := lower cmd in
  if isdigit cmd || (pystr_eqb cmd (str ".") && negb (contains 46 d)) then
    if pystr_eqb d (str "0") then Ok (set_display s cmd)
    else Ok (set_display s (d ++ cmd))
  else if mem cmd operators then
    if negb (pystr_eqb d (str "0"))
    then Ok (set_display s (d ++ str " " ++ cmd ++ str " "))
    else Ok s
  else if pystr_eqb cmd_lower (str "sin") then
    Ok (set_display s
          (apply_function (fun v => math_sin (math_radians v)) d))
  else if pystr_eqb cmd_lower (str "cos") then
    Ok (set_display s
          (apply_function (fun v => math_cos (math_radians v)) d))
  else if pystr_eqb cmd_lower (str "tan") then
    Ok (set_display s
          (apply_function (fun v => math_tan (math_radians v)) d))
  else if pystr_eqb cmd_lower (str "log") then
    Ok (set_display s (apply_function math_log10 d))
  else if pystr_eqb cmd_lower (str "ln") then
    Ok (set_display s (apply_function math_log d))
  else if pystr_eqb cmd_lower (str "sqrt") || pystr_eqb cmd [cp_sqrt] then
    Ok (set_display s (apply_function math_sqrt d))
  else if pystr_eqb cmd [cp_pi] then
    Ok (set_display s (str_of_float math_pi))
  else if pystr_eqb cmd_lower (str "del") then
    Ok (set_display s
          (if (1 <? length d)%nat then drop_last d else str "0"))
  else if pystr_eqb cmd (str "%") then
    Ok (set_display s (apply_percent d))
  else if pystr_eqb cmd (str "=") then
    Ok (apply_equals s)
  else if pystr_eqb cmd (str "(") then
    if pystr_eqb d (str "0") then Ok (set_display s (str "("))
    else Ok (set_display s (d ++ str "("))
  else if pystr_eqb cmd (str ")") then
    Ok (set_display s (d ++ str ")"))
  else if mem cmd_lower [str "x" ++ [cp_sup2]; str "x^2"] then
    Ok (set_display s
          (apply_function
             (fun v => float_pow v (float_of_decimal false 2 0)) d))
  else if mem cmd_lower [str "x" ++ [cp_sup3]; str "x^3"] then
    Ok (set_display s
          (apply_function
             (fun v => float_pow v (float_of_decimal false 3 0)) d))
  else Ok s.

(** The body of the loop on the stripped line [cmd]. *)
Definition loop_body (s : state) (cmd : pystr) : outcome :=
  match cmd with
  | [] => Continue s
  | _ =>
      if mem (lower cmd) [str "exit"; str "quit"] then Return
      else if pystr_eqb (lower cmd) (str "clear")
              || pystr_eqb (lower cmd) (str "ac")
      then Continue (set_display s (str "0"))
      else if pystr_eqb (lower cmd) (str "help") then Continue s
      else Continue (try_except (dispatch s cmd) (fun _ => s))
  end.

(** The engine's one operation: the state after the token. *)
Definition apply_token (s : state) (cmd : pystr) : state :=
  match loop_body s cmd with
  | Continue s' => s'
  | Return => s
  end.

Definition run (s : state) (cmds : list pystr) : state :=
  fold_left apply_token cmds s.

(** The table [OPS]. *)
Definition OPS (o : operation) : float -> float -> result float :=
  match o with
  | op_add => add
  | op_sub => sub
  | op_mul => mul
  | op_div => div
  | op_pow => powr
  | op_mod => mod_
  end.

(** The last part of [main]: call the function under [try], turn an
    integer-valued float into an [int], print.  The conversion stands
    after the handlers: an exception of it would leave [main]. *)
Definition main_one_shot (o : operation) (a b : float) : result report :=
  match OPS o a b with
  | Raise ZeroDivisionError => Ok CannotDivideByZero
  | Raise e => Ok (OtherError e)
  | Ok r =>
      text <- (if is_integer r
               then z <- int_of_float r ;; Ok (str_of_int z)
               else Ok (str_of_float r)) ;;
      Ok (Answer (str_of_float a) (op_symbol o) (str_of_float b) text)
  end.

End Engine.

(** ** A host for closed examples

    The tokens of the examples below call none of the host's functions;
    they are run on a host that knows no digit beyond ASCII and whose
    library raises. *)
Definition no_digit : N -> bool := fun _ => false.
Definition no_math : float -> result float := fun _ => Raise ValueError.
Definition no_pow : float -> float -> result float :=
  fun _ _ => Raise OverflowError.

Definition apply_plain : state -> pystr -> state :=
  apply_token no_digit no_math no_math no_math no_math no_math no_pow.

Definition run_plain : state -> list pystr -> state :=
  run no_digit no_math no_math no_math no_math no_math no_pow.

(** The float of an [int] small enough to be one exactly. *)
Definition float_lit (z : Z) : float := binary_normalize prec emax z 0 false.

(* ================================================================== *)
(** * Facts about strings and printing *)
(* ================================================================== *)

Lemma pystr_eqb_refl (a : pystr) : pystr_eqb a a = true.
Proof.
  induction a as [|x a IH]; simpl; [reflexivity|].
  now rewrite N.eqb_refl, IH.
Qed.

Lemma pystr_eqb_eq (a b : pystr) : pystr_eqb a b = true <-> a = b.
Proof.
  split.
  - revert b; induction a as [|x a IH]; intros [|y b]; simpl;
      try reflexivity; try discriminate.
    intros H. apply andb_true_iff in H as [Hx Hab].
    apply N.eqb_eq in Hx. now rewrite Hx, (IH b Hab).
  - intros ->. apply pystr_eqb_refl.
Qed.

Lemma pystr_eqb_neq (a b : pystr) : pystr_eqb a b = false <-> a <> b.
Proof.
  split.
  - intros H E. apply pystr_eqb_eq in E. congruence.
  - intros H. destruct (pystr_eqb a b) eqn:E; [|reflexivity].
    apply pystr_eqb_eq in E. contradiction.
Qed.

Lemma contains_app (c : N) (a b : pystr) :
  contains c (a ++ b) = contains c a || contains c b.
Proof. apply existsb_app. Qed.

Lemma replace_app (o n : N) (a b : pystr) :
  replace o n (a ++ b) = replace o n a ++ replace o n b.
Proof. apply map_app. Qed.

Lemma canonical_app (a b : pystr) :
  canonical (a ++ b) = canonical a ++ canonical b.
Proof. unfold canonical. now rewrite !replace_app. Qed.

(** ** Digit strings *)

Definition all_digits (t : pystr) : Prop :=
  Forall (fun c => is_ascii_digit c = true) t.

Lemma digits_of_uint_digits (u : Decimal.uint) :
  all_digits (digits_of_uint u).
Proof.
  induction u; simpl; constructor; auto.
Qed.

Lemma digits_of_uint_nil (u : Decimal.uint) :
  digits_of_uint u = [] -> u = Decimal.Nil.
Proof. destruct u; simpl; congruence. Qed.

Lemma str_of_N_nonempty (n : N) : str_of_N n <> [].
Proof.
  unfold str_of_N. intros H. apply digits_of_uint_nil in H.
  destruct n as [|p]; simpl in H; [discriminate|].
  now apply Unsigned.to_uint_nonnil in H.
Qed.

Lemma str_of_int_nonempty (z : Z) : str_of_int z <> [].
Proof.
  unfold str_of_int. destruct (z <? 0); [discriminate|].
  apply str_of_N_nonempty.
Qed.

Lemma all_digits_contains (c : N) (t : pystr) :
  all_digits t -> is_ascii_digit c = false -> contains c t = false.
Proof.
  intros Ht Hc. induction Ht as [|x t Hx _ IH]; simpl; [reflexivity|].
  rewrite IH, orb_false_r. apply N.eqb_neq. intros ->. congruence.
Qed.

Lemma str_of_int_contains (c : N) (z : Z) :
  is_ascii_digit c = false -> c <> 45%N -> contains c (str_of_int z) = false.
Proof.
  intros Hc Hm. unfold str_of_int, str_of_N.
  destruct (z <? 0); simpl.
  - rewrite (all_digits_contains c _ (digits_of_uint_digits _) Hc).
    rewrite orb_false_r. now apply N.eqb_neq.
  - apply (all_digits_contains c _ (digits_of_uint_digits _) Hc).
Qed.

(** ** The text of a float *)

(** Every text of a float carries a decimal point, an exponent or the [n]
    of [inf] and [nan]: it is never the text of an [int]. *)
Definition float_mark (t : pystr) : bool :=
  contains 46 t || contains 101 t || contains 110 t.

Lemma float_mark_app_l (a b : pystr) :
  float_mark a = true -> float_mark (a ++ b) = true.
Proof.
  unfold float_mark. rewrite !contains_app.
  destruct (contains 46 a), (contains 101 a), (contains 110 a);
    simpl; intros H; try discriminate; rewrite ?orb_true_r; reflexivity.
Qed.

Lemma float_mark_app_r (a b : pystr) :
  float_mark b = true -> float_mark (a ++ b) = true.
Proof.
  unfold float_mark. rewrite !contains_app.
  destruct (contains 46 b), (contains 101 b), (contains 110 b);
    simpl; intros H; try discriminate; rewrite ?orb_true_r; reflexivity.
Qed.

Lemma float_mark_cons (c : N) (t : pystr) :
  float_mark t = true -> float_mark (c :: t) = true.
Proof. apply (float_mark_app_r [c]). Qed.

Lemma float_mark_head (c : N) (t : pystr) :
  N.eqb 46 c || N.eqb 101 c || N.eqb 110 c = true ->
  float_mark (c :: t) = true.
Proof.
  unfold float_mark, contains. cbn [existsb].
  destruct (N.eqb 46 c), (N.eqb 101 c), (N.eqb 110 c); simpl;
    intros H; try discriminate; rewrite ?orb_true_r; reflexivity.
Qed.

Lemma format_repr_mark (ds : pystr) (decpt : Z) :
  float_mark (format_repr ds decpt) = true.
Proof.
  unfold format_repr.
  destruct ((decpt <=? -4) || (16 <? decpt)).
  - apply float_mark_app_r, float_mark_app_r.
    now apply float_mark_head.
  - destruct (decpt <=? 0).
    + apply float_mark_app_l. reflexivity.
    + destruct (decpt <? Z.of_nat (length ds)).
      * apply float_mark_app_r. now apply float_mark_head.
      * apply float_mark_app_r, float_mark_app_r. reflexivity.
Qed.

Lemma with_sign_mark (s : bool) (t : pystr) :
  float_mark t = true -> float_mark (with_sign s t) = true.
Proof. destruct s; simpl; [apply float_mark_cons | trivial]. Qed.

Lemma str_of_float_mark (x : float) : float_mark (str_of_float x) = true.
Proof.
  destruct x as [s|s| |s m e]; simpl.
  - apply with_sign_mark, format_repr_mark.
  - apply with_sign_mark. reflexivity.
  - reflexivity.
  - destruct (shortest_digits m e) as [ds decpt].
    apply with_sign_mark, format_repr_mark.
Qed.

Lemma str_of_int_no_mark (z : Z) : float_mark (str_of_int z) = false.
Proof.
  unfold float_mark.
  now rewrite !str_of_int_contains.
Qed.

Lemma str_of_float_nonempty (x : float) : str_of_float x <> [].
Proof.
  intros H. pose proof (str_of_float_mark x) as M.
  rewrite H in M. discriminate.
Qed.

Lemma str_of_float_not_int (x : float) (z : Z) :
  str_of_float x <> str_of_int z.
Proof.
  intros H. pose proof (str_of_float_mark x) as M.
  rewrite H, str_of_int_no_mark in M. discriminate.
Qed.

(* ================================================================== *)
(** * Facts about floats *)
(* ================================================================== *)

(** A float as Python holds it: the mantissa of a finite one has at most
    53 bits and exactly 53 above the smallest exponent. *)
Definition valid (x : float) : Prop := valid_binary prec emax x = true.

Lemma pos_iter_xO (m d : positive) :
  Zpos (Pos.iter xO m d) = Zpos m * 2 ^ Zpos d.
Proof.
  induction d as [|d IH] using Pos.peano_ind.
  - simpl. lia.
  - rewrite Pos.iter_succ, Pos2Z.inj_succ, Z.pow_succ_r by lia.
    rewrite Pos2Z.inj_xO, IH. lia.
Qed.

Lemma digits2_pos_iter_xO (m d : positive) :
  digits2_pos (Pos.iter xO m d) = (digits2_pos m + d)%positive.
Proof.
  induction d as [|d IH] using Pos.peano_ind.
  - simpl. lia.
  - rewrite Pos.iter_succ. simpl. rewrite IH. lia.
Qed.

Lemma digits2_pos_bounds (m : positive) :
  2 ^ (Zpos (digits2_pos m) - 1) <= Zpos m < 2 ^ Zpos (digits2_pos m).
Proof.
  induction m as [m IH|m IH|]; simpl digits2_pos.
  - rewrite Pos2Z.inj_succ, (Pos2Z.inj_xI m).
    replace (Z.succ (Zpos (digits2_pos m)) - 1)
      with (Z.succ (Zpos (digits2_pos m) - 1)) by lia.
    rewrite !Z.pow_succ_r by lia.
    set (lo := 2 ^ (Zpos (digits2_pos m) - 1)) in *.
    set (hi := 2 ^ Zpos (digits2_pos m)) in *. clearbody lo hi. lia.
  - rewrite Pos2Z.inj_succ, (Pos2Z.inj_xO m).
    replace (Z.succ (Zpos (digits2_pos m)) - 1)
      with (Z.succ (Zpos (digits2_pos m) - 1)) by lia.
    rewrite !Z.pow_succ_r by lia.
    set (lo := 2 ^ (Zpos (digits2_pos m) - 1)) in *.
    set (hi := 2 ^ Zpos (digits2_pos m)) in *. clearbody lo hi. lia.
  - simpl. lia.
Qed.

Lemma digits2_pos_le (m : positive) (k : Z) :
  Zpos m < 2 ^ k -> Zpos (digits2_pos m) <= k.
Proof.
  intros H. pose proof (digits2_pos_bounds m) as [L _].
  destruct (Z.le_gt_cases (Zpos (digits2_pos m)) k) as [|G]; [assumption|].
  exfalso.
  assert (2 ^ k <= 2 ^ (Zpos (digits2_pos m) - 1))
    by (apply Z.pow_le_mono_r; lia).
  lia.
Qed.

(** Aligning to a smaller exponent shifts the mantissa left and keeps the
    value. *)
Lemma shl_align_spec (m : positive) (e e' : Z) :
  e' <= e ->
  Zpos (fst (shl_align m e e')) = Zpos m * 2 ^ (e - e')
  /\ snd (shl_align m e e') = e'
  /\ Zpos (digits2_pos (fst (shl_align m e e'))) + e'
     = Zpos (digits2_pos m) + e.
Proof.
  intros H. unfold shl_align.
  destruct (e' - e) as [|p|p] eqn:E.
  - assert (e' = e) as -> by lia. rewrite Z.sub_diag. simpl. lia.
  - lia.
  - assert (e - e' = Zpos p) as -> by lia. simpl fst. simpl snd.
    rewrite pos_iter_xO, digits2_pos_iter_xO. lia.
Qed.

(** A mantissa that needs no cut is rounded to itself. *)
Lemma binary_round_exact (s : bool) (m : positive) (e : Z) :
  fexp prec emax (Zpos (digits2_pos m) + e) <= e ->
  fexp prec emax (Zpos (digits2_pos m) + e) <= emax - prec ->
  binary_round prec emax s m e =
    S754_finite s
      (fst (shl_align m e (fexp prec emax (Zpos (digits2_pos m) + e))))
      (fexp prec emax (Zpos (digits2_pos m) + e)).
Proof.
  intros He Hmax. unfold binary_round.
  set (et := fexp prec emax (Zpos (digits2_pos m) + e)) in *.
  destruct (shl_align_spec m e et He) as (_ & Hs & Hd).
  destruct (shl_align m e et) as [mz ez]. cbn [fst snd] in *. subst ez.
  unfold binary_round_aux, shr_fexp.
  unfold Zdigits2. rewrite Hd. fold et. rewrite Z.sub_diag.
  cbn [shr shr_record_of_loc shr_m loc_of_shr_record round_nearest_even].
  rewrite Hd. fold et. rewrite Z.sub_diag.
  cbn [shr shr_m].
  apply Z.leb_le in Hmax. now rewrite Hmax.
Qed.

(** ** The sign of a rounded number *)

Lemma iter_pos_invariant {A} (P : A -> Prop) (f : A -> A) :
  (forall x, P x -> P (f x)) ->
  forall (p : positive) (x : A), P x -> P (iter_pos f p x).
Proof.
  intros Hf. induction p as [p IH|p IH|]; intros x Hx; simpl; auto.
Qed.

Lemma shr_1_nonneg (mrs : shr_record) :
  0 <= shr_m mrs -> 0 <= shr_m (shr_1 mrs).
Proof.
  destruct mrs as [m r s]. simpl.
  destruct m as [|[p|p|]|p]; simpl; lia.
Qed.

Lemma shr_nonneg (mrs : shr_record) (e n : Z) :
  0 <= shr_m mrs -> 0 <= shr_m (fst (shr mrs e n)).
Proof.
  intros H. unfold shr. destruct n; simpl; trivial.
  now apply iter_pos_invariant; [apply shr_1_nonneg|].
Qed.

Lemma shr_fexp_nonneg (m e : Z) (l : location) :
  0 <= m -> 0 <= shr_m (fst (shr_fexp prec emax m e l)).
Proof.
  intros H. unfold shr_fexp. apply shr_nonneg.
  destruct l as [|[| |]]; simpl; assumption.
Qed.

Lemma round_nearest_even_nonneg (m : Z) (l : location) :
  0 <= m -> 0 <= round_nearest_even m l.
Proof.
  intros H. destruct l as [|[| |]]; simpl; try lia.
  destruct (Z.even m); lia.
Qed.

(** Rounding a magnitude keeps the sign it is given: the result is a zero,
    a finite number or an infinity of that sign. *)
Lemma binary_round_aux_sign (s : bool) (m e : Z) (l : location) :
  0 <= m ->
  is_nan (binary_round_aux prec emax s m e l) = false
  /\ sign_bit (binary_round_aux prec emax s m e l) = s.
Proof.
  intros H. unfold binary_round_aux.
  pose proof (shr_fexp_nonneg m e l H) as H1.
  destruct (shr_fexp prec emax m e l) as [mrs1 e1]. simpl in H1.
  pose proof (shr_fexp_nonneg _ e1 loc_Exact
                (round_nearest_even_nonneg (shr_m mrs1)
                   (loc_of_shr_record mrs1) H1)) as H2.
  destruct (shr_fexp prec emax _ e1 loc_Exact) as [mrs2 e2]. simpl in H2.
  destruct (shr_m mrs2) as [|p|p]; [auto| |lia].
  destruct (e2 <=? emax - prec); auto.
Qed.

Lemma binary_round_sign (s : bool) (m : positive) (e : Z) :
  is_nan (binary_round prec emax s m e) = false
  /\ sign_bit (binary_round prec emax s m e) = s.
Proof.
  unfold binary_round. destruct (shl_align _ _ _) as [mz ez].
  apply binary_round_aux_sign. lia.
Qed.

(** The float of a non-zero integer mantissa has the sign of the
    integer. *)
Lemma binary_normalize_sign (z e : Z) (sz : bool) :
  z <> 0 ->
  sign_bit (binary_normalize prec emax z e sz) = (z <? 0).
Proof.
  intros Hz. destruct z as [|p|p]; [congruence| |]; simpl;
    apply binary_round_sign.
Qed.

(** ** The remainder takes the sign of the divisor *)

Lemma valid_finite (s : bool) (m : positive) (e : Z) :
  valid (S754_finite s m e) ->
  Zpos (digits2_pos m) <= 53 /\ -1074 <= e <= 971.
Proof.
  unfold valid, valid_binary, bounded, canonical_mantissa, fexp, emin,
    prec, emax.
  intros H. apply andb_true_iff in H as [H1 H2].
  apply Z.eqb_eq in H1. apply Z.leb_le in H2. lia.
Qed.

Lemma fmod_finite (sa sb : bool) (ma mb : positive) (ea eb : Z) :
  valid (S754_finite sa ma ea) ->
  valid (S754_finite sb mb eb) ->
  let ez := Z.min ea eb in
  let r := (Zpos ma * 2 ^ (ea - ez)) mod (Zpos mb * 2 ^ (eb - ez)) in
  (r = 0 /\ fmod (S754_finite sa ma ea) (S754_finite sb mb eb) = S754_zero sa)
  \/ (exists (mz : positive) (et : Z),
        fmod (S754_finite sa ma ea) (S754_finite sb mb eb)
        = S754_finite sa mz et
        /\ et <= ez
        /\ Zpos mz = r * 2 ^ (ez - et)
        /\ 0 < r < Zpos mb * 2 ^ (eb - ez)).
Proof.
  intros Va Vb ez r.
  apply valid_finite in Va as (Da & Ea). apply valid_finite in Vb as (Db & Eb).
  assert (Hpa : 0 < 2 ^ (ea - ez)) by (apply Z.pow_pos_nonneg; lia).
  assert (Hpb : 0 < 2 ^ (eb - ez)) by (apply Z.pow_pos_nonneg; lia).
  assert (Hb : 0 < Zpos mb * 2 ^ (eb - ez)) by lia.
  assert (Hr : 0 <= r < Zpos mb * 2 ^ (eb - ez)) by (apply Z.mod_pos_bound, Hb).
  assert (Hra : r <= Zpos ma * 2 ^ (ea - ez)) by (apply Z.mod_le; lia).
  unfold fmod. fold ez. fold r.
  destruct r as [|p|p] eqn:Er;
    [left; split; [reflexivity | destruct sa; reflexivity]| |lia].
  right. simpl cond_Zopp.
  assert (Hp : Zpos p < 2 ^ 53).
  { pose proof (digits2_pos_bounds ma) as [_ Ua].
    pose proof (digits2_pos_bounds mb) as [_ Ub].
    assert (2 ^ Zpos (digits2_pos ma) <= 2 ^ 53)
      by (apply Z.pow_le_mono_r; lia).
    assert (2 ^ Zpos (digits2_pos mb) <= 2 ^ 53)
      by (apply Z.pow_le_mono_r; lia).
    destruct (Z.le_ge_cases ea eb) as [Le|Ge].
    - assert (ez = ea) as E by lia. rewrite E, Z.sub_diag in Hra.
      simpl in Hra. lia.
    - assert (ez = eb) as E by lia. rewrite E, Z.sub_diag in Hr.
      simpl in Hr. lia. }
  apply digits2_pos_le in Hp.
  assert (Het : fexp prec emax (Zpos (digits2_pos p) + ez) <= ez)
    by (unfold fexp, emin, prec, emax; lia).
  assert (binary_normalize prec emax (cond_Zopp sa (Zpos p)) ez sa
          = binary_round prec emax sa p ez) as -> by (destruct sa; reflexivity).
  rewrite binary_round_exact by (trivial; unfold prec, emax in *; lia).
  destruct (shl_align_spec p ez _ Het) as (Hv & _ & _).
  eexists _, _. split; [reflexivity|].
  split; [assumption|]. split; [assumption|lia].
Qed.

Lemma float_rem_sign (a b : float) :
  valid a -> valid b ->
  is_finite a = true -> is_nan b = false -> is_zero b = false ->
  exists r, float_rem a b = Ok r /\ sign_bit r = sign_bit b.
Proof.
  intros Va Vb Fa Nb Zb.
  destruct a as [sa|sa| |sa ma ea]; try discriminate;
    destruct b as [sb|sb| |sb mb eb]; try discriminate.
  - unfold float_rem. simpl. eauto.
  - unfold float_rem. simpl. eauto.
  - unfold float_rem. destruct sa, sb; simpl; eauto.
  - unfold float_rem. cbn [is_zero].
    destruct (fmod_finite sa sb ma mb ea eb Va Vb)
      as [[_ ->] | (mz & et & -> & Het & Hmz & Hr)]; [simpl; eauto|].
    cbn [is_zero negb is_negative].
    destruct (xorb sb sa) eqn:X.
    2:{ exists (S754_finite sa mz et). split; [reflexivity|].
        destruct sa, sb; simpl in *; congruence. }
    eexists. split; [reflexivity|].
    unfold fadd, SFadd.
    apply valid_finite in Va as (_ & Ea). apply valid_finite in Vb as (_ & Eb).
    replace (Z.min et eb) with et by lia.
    destruct (shl_align_spec mz et et (Z.le_refl et)) as (-> & _ & _).
    destruct (shl_align_spec mb eb et) as (-> & _ & _); [lia|].
    rewrite Z.sub_diag, Z.mul_1_r.
    assert (Hlt : Zpos mz < Zpos mb * 2 ^ (eb - et)).
    { replace (eb - et) with ((eb - Z.min ea eb) + (Z.min ea eb - et)) by lia.
      rewrite Z.pow_add_r by lia.
      assert (0 < 2 ^ (Z.min ea eb - et)) by (apply Z.pow_pos_nonneg; lia).
      rewrite Hmz, Z.mul_assoc.
      apply Z.mul_lt_mono_pos_r; [assumption | apply Hr]. }
    set (y := Zpos mb * 2 ^ (eb - et)) in *. clearbody y.
    clear Hmz Hr Fa Nb Zb Ea Eb Het.
    destruct sa, sb; try discriminate X; clear X;
      cbn [cond_Zopp sign_bit]; rewrite binary_normalize_sign.
    + apply Z.ltb_ge. lia.
    + lia.
    + apply Z.ltb_lt. lia.
    + lia.
Qed.

(** ** Rounding to 8 decimals does not overflow *)

Lemma Zdigits2_nonneg (z : Z) : 0 <= Zdigits2 z.
Proof. destruct z; simpl; lia. Qed.

Lemma Zdigits2_le (z k : Z) : 0 <= z < 2 ^ k -> 0 <= k -> Zdigits2 z <= k.
Proof.
  intros [Hz Hk] H0. destruct z as [|p|p]; simpl; [assumption| |lia].
  now apply digits2_pos_le.
Qed.

Lemma Zdigits2_bound (z : Z) : 0 <= z -> z < 2 ^ Zdigits2 z.
Proof.
  intros Hz. destruct z as [|p|p]; simpl; [lia| |lia].
  apply digits2_pos_bounds.
Qed.

Lemma Zdigits2_mono (a b : Z) : 0 <= a <= b -> Zdigits2 a <= Zdigits2 b.
Proof.
  intros [Ha Hab]. apply Zdigits2_le; [|apply Zdigits2_nonneg].
  split; [assumption|]. pose proof (Zdigits2_bound b). lia.
Qed.

Lemma Zdigits2_succ (z : Z) : 0 <= z -> Zdigits2 (z + 1) <= Zdigits2 z + 1.
Proof.
  intros Hz. pose proof (Zdigits2_nonneg z) as Hd.
  apply Zdigits2_le; [|lia].
  pose proof (Zdigits2_bound z Hz) as Hb.
  rewrite Z.pow_add_r, Z.pow_1_r by lia. lia.
Qed.

Lemma shr_1_digits (mrs : shr_record) :
  0 <= shr_m mrs ->
  Zdigits2 (shr_m (shr_1 mrs)) <= Z.max 0 (Zdigits2 (shr_m mrs) - 1).
Proof.
  destruct mrs as [m r s]. cbn [shr_m].
  destruct m as [|[p|p|]|p]; cbn [shr_1 shr_m Zdigits2 digits2_pos];
    rewrite ?Pos2Z.inj_succ; intros H; lia.
Qed.

Lemma iter_shr_1_digits (p : positive) : forall mrs : shr_record,
  0 <= shr_m mrs ->
  0 <= shr_m (iter_pos shr_1 p mrs)
  /\ Zdigits2 (shr_m (iter_pos shr_1 p mrs))
     <= Z.max 0 (Zdigits2 (shr_m mrs) - Zpos p).
Proof.
  induction p as [p IH|p IH|]; intros mrs H; simpl iter_pos.
  - pose proof (shr_1_nonneg mrs H) as H1.
    pose proof (shr_1_digits mrs H) as D1.
    destruct (IH _ H1) as [H2 D2]. destruct (IH _ H2) as [H3 D3].
    split; [assumption|]. lia.
  - destruct (IH _ H) as [H2 D2]. destruct (IH _ H2) as [H3 D3].
    split; [assumption|]. lia.
  - split; [now apply shr_1_nonneg|]. now apply shr_1_digits.
Qed.

(** The first cut of a rounding: the new exponent, and the size of what is
    left of the mantissa. *)
Lemma shr_fexp_bound (m e : Z) (l : location) :
  0 <= m ->
  0 <= shr_m (fst (shr_fexp prec emax m e l))
  /\ snd (shr_fexp prec emax m e l)
     = Z.max e (fexp prec emax (Zdigits2 m + e))
  /\ Zdigits2 (shr_m (fst (shr_fexp prec emax m e l)))
     + snd (shr_fexp prec emax m e l)
     <= Z.max (Zdigits2 m + e) (snd (shr_fexp prec emax m e l)).
Proof.
  intros H. unfold shr_fexp, shr.
  assert (R : shr_m (shr_record_of_loc m l) = m)
    by (destruct l as [|[| |]]; reflexivity).
  destruct (fexp prec emax (Zdigits2 m + e) - e) as [|p|p] eqn:E;
    cbn [fst snd]; rewrite ?R.
  - split; [assumption|]. split; lia.
  - destruct (iter_shr_1_digits p (shr_record_of_loc m l)) as [H1 D1];
      [now rewrite R|].
    rewrite R in D1. split; [assumption|]. split; lia.
  - split; [assumption|]. split; lia.
Qed.

Lemma round_nearest_even_digits (m : Z) (l : location) :
  0 <= m -> Zdigits2 (round_nearest_even m l) <= Zdigits2 m + 1.
Proof.
  intros H. pose proof (Zdigits2_succ m H).
  destruct l as [|[| |]]; simpl; try lia.
  destruct (Z.even m); lia.
Qed.

(** A magnitude well below the largest float is not rounded to an
    infinity. *)
Lemma binary_round_aux_finite (s : bool) (m e : Z) (l : location) :
  0 <= m -> Zdigits2 m + e <= 971 -> e <= 971 ->
  is_inf (binary_round_aux prec emax s m e l) = false.
Proof.
  intros H Hd He. unfold binary_round_aux.
  destruct (shr_fexp_bound m e l H) as (H1 & E1 & D1).
  destruct (shr_fexp prec emax m e l) as [mrs1 e1]. cbn [fst snd] in *.
  set (m2 := round_nearest_even (shr_m mrs1) (loc_of_shr_record mrs1)).
  assert (H2 : 0 <= m2) by now apply round_nearest_even_nonneg.
  pose proof (round_nearest_even_digits (shr_m mrs1)
                (loc_of_shr_record mrs1) H1) as D2. fold m2 in D2.
  destruct (shr_fexp_bound m2 e1 loc_Exact H2) as (H3 & E3 & D3).
  destruct (shr_fexp prec emax m2 e1 loc_Exact) as [mrs2 e2].
  cbn [fst snd] in *.
  destruct (shr_m mrs2) as [|p|p]; [reflexivity| |reflexivity].
  assert (e2 <= emax - prec) as L
    by (unfold fexp, emin, prec, emax in *; lia).
  apply Z.leb_le in L. now rewrite L.
Qed.

Lemma float_of_ratio_finite (neg : bool) (n d : positive) :
  Zpos (digits2_pos n) <= 971 ->
  is_inf (float_of_ratio neg n d) = false.
Proof.
  intros Hn. unfold float_of_ratio, SFdiv, SFdiv_core_binary.
  set (e' := Z.min _ _).
  assert (He : e' <= 0) by (unfold e'; lia).
  clearbody e'.
  set (m' := match 0 - 0 - e' with
             | 0 => Zpos n
             | Zpos _ => Z.shiftl (Zpos n) (0 - 0 - e')
             | Zneg _ => 0
             end).
  assert (Hm : 0 <= m' /\ Zdigits2 m' + e' <= Zpos (digits2_pos n)).
  { unfold m'. destruct (0 - 0 - e') as [|p|p] eqn:E.
    - cbn [Zdigits2]. lia.
    - rewrite Z.shiftl_mul_pow2 by lia.
      assert (0 < 2 ^ Zpos p) by (apply Z.pow_pos_nonneg; lia).
      split; [lia|].
      assert (Zdigits2 (Zpos n * 2 ^ Zpos p) <= Zpos (digits2_pos n) + Zpos p).
      { apply Zdigits2_le; [|lia]. split; [lia|].
        rewrite Z.pow_add_r by lia.
        pose proof (digits2_pos_bounds n) as [_ U].
        apply Z.mul_lt_mono_pos_r; assumption. }
      lia.
    - cbn [Zdigits2]. lia. }
  clearbody m'.
  destruct Hm as [Hm0 Hmd].
  pose proof (Z.div_eucl_eq m' (Zpos d)) as Q.
  pose proof (Z.mod_pos_bound m' (Zpos d)) as B.
  unfold Z.modulo in B.
  destruct (Z.div_eucl m' (Zpos d)) as [q r].
  assert (Hq : 0 <= q <= m') by nia.
  apply binary_round_aux_finite; [lia| |lia].
  pose proof (Zdigits2_mono q m' Hq). lia.
Qed.

(** A float that is not an integer has a short mantissa and a negative
    exponent: its rounding to 8 decimals is a float again. *)
Lemma round_float_8_ok (x : float) :
  valid x -> is_integer x = false -> exists r, round_float x 8 = Ok r.
Proof.
  intros V I. destruct x as [s|s| |s m e]; simpl; eauto.
  apply valid_finite in V as (Dm & Ee).
  simpl in I. apply orb_false_iff in I as [I _].
  apply Z.leb_gt in I.
  unfold frac_of. destruct (0 <=? e) eqn:E0; [apply Z.leb_le in E0; lia|].
  cbn [scale10 Z.leb Z.compare]. 
  set (n := round_half_even (Zpos m * 10 ^ 8, 2 ^ (- e))).
  assert (Hn : 0 <= n < 2 ^ 80).
  { unfold n, round_half_even.
    assert (P : 2 <= 2 ^ (- e)).
    { change 2 with (2 ^ 1) at 1. apply Z.pow_le_mono_r; lia. }
    pose proof (digits2_pos_bounds m) as [_ U].
    assert (2 ^ Zpos (digits2_pos m) <= 2 ^ 53)
      by (apply Z.pow_le_mono_r; lia).
    set (num := Zpos m * 10 ^ 8) in *.
    assert (Hnum : 0 < num < 2 ^ 53 * 10 ^ 8) by (unfold num; lia).
    set (den := 2 ^ (- e)) in *.
    assert (Q : 0 <= num / den <= num / 2).
    { split; [apply Z.div_pos; lia|].
      apply Z.div_le_compat_l; lia. }
    assert (num / 2 + 1 < 2 ^ 80).
    { assert (num / 2 <= num) by (apply Z.div_le_upper_bound; lia).
      assert (2 ^ 53 * 10 ^ 8 + 1 < 2 ^ 80) by (vm_compute; reflexivity).
      lia. }
    destruct (2 * (num mod den) ?= den); [destruct (Z.even _)| |]; lia. }
  clearbody n.
  destruct n as [|p|p]; [simpl; eauto| |lia].
  simpl Z.to_N. unfold float_of_decimal.
  change (0 <=? - 8) with false. cbn iota.
  rewrite float_of_ratio_finite; [eauto|].
  assert (Zpos (digits2_pos p) <= 80)
    by (apply digits2_pos_le; lia).
  lia.
Qed.

(** ** What [is_integer], [int] and [round] compute *)

(** Python's numbers: an [int], or a [float], which is a binary64 number;
    the empty tuple is not one. *)
Definition number (v : value) : Prop :=
  match v with
  | VInt _ => True
  | VFloat f => valid f
  | VTuple => False
  end.

Lemma frac_of_pos (m : positive) (e : Z) :
  0 < fst (frac_of m e) /\ 0 < snd (frac_of m e).
Proof.
  unfold frac_of. destruct (0 <=? e) eqn:E; cbn [fst snd].
  - apply Z.leb_le in E.
    assert (0 < 2 ^ e) by (apply Z.pow_pos_nonneg; lia).
    split; [apply Z.mul_pos_pos|]; lia.
  - apply Z.leb_gt in E.
    assert (0 < 2 ^ (- e)) by (apply Z.pow_pos_nonneg; lia). lia.
Qed.

(** A finite float is an integer exactly when its denominator divides its
    numerator. *)
Lemma is_integer_spec (s : bool) (m : positive) (e : Z) :
  is_integer (S754_finite s m e) = true
  <-> exists k, fst (frac_of m e) = k * snd (frac_of m e).
Proof.
  unfold is_integer, frac_of. destruct (0 <=? e) eqn:E; cbn [fst snd orb].
  - split; [|reflexivity]. intros _. exists (Zpos m * 2 ^ e).
    now rewrite Z.mul_1_r.
  - apply Z.leb_gt in E.
    assert (P : 0 < 2 ^ (- e)) by (apply Z.pow_pos_nonneg; lia).
    rewrite Z.eqb_eq, Z.mod_divide by lia. reflexivity.
Qed.

(** [int] of an integer-valued float is that integer. *)
Lemma int_of_float_spec (s : bool) (m : positive) (e : Z) (k : Z) :
  fst (frac_of m e) = k * snd (frac_of m e) ->
  int_of_float (S754_finite s m e) = Ok (cond_Zopp s k).
Proof.
  intros H. unfold int_of_float.
  pose proof (frac_of_pos m e) as [_ Pb].
  destruct (frac_of m e) as [a b]. cbn [fst snd] in *. subst a.
  rewrite Z.div_mul by lia. reflexivity.
Qed.

(** [round_half_even] gives an integer nearest to the fraction, and the
    even one of the two when the fraction lies half way. *)
Lemma round_half_even_spec (num den : Z) :
  0 < den ->
  let n := round_half_even (num, den) in
  2 * Z.abs (n * den - num) <= den
  /\ (2 * Z.abs (n * den - num) = den -> Z.even n = true).
Proof.
  intros Hd. unfold round_half_even.
  pose proof (Z.div_mod num den) as Q.
  pose proof (Z.mod_pos_bound num den Hd) as B.
  set (q := num / den) in *. set (r := num mod den) in *.
  clearbody q r.
  assert (Hn : num = den * q + r) by (apply Q; lia). clear Q.
  destruct (2 * r ?= den) eqn:C.
  - apply Z.compare_eq in C.
    destruct (Z.even q) eqn:Ev.
    + split; [nia|]. intros _. exact Ev.
    + split; [nia|]. intros _.
      rewrite Z.add_1_r, Z.even_succ, <- Z.negb_even, Ev. reflexivity.
  - rewrite Z.compare_lt_iff in C. split; nia.
  - rewrite Z.compare_gt_iff in C. split; nia.
Qed.

Lemma scale10_8 (ab : Z * Z) :
  scale10 ab 8 = (fst ab * 10 ^ 8, snd ab).
Proof. destruct ab. reflexivity. Qed.

(* ================================================================== *)
(** * Facts about the evaluator *)
(* ================================================================== *)

Lemma bind_assoc {A B C} (r : result A) (f : A -> result B)
    (g : B -> result C) :
  (y <- (x <- r ;; f x) ;; g y) = (x <- r ;; y <- f x ;; g y).
Proof. destruct r; reflexivity. Qed.

(** ** A space ends the word being read *)

Lemma continues_space (w : word) : continues w 32 = false.
Proof. destruct w; reflexivity. Qed.

Lemma lex_space (a : pystr) : forall (w : word) (rest : pystr),
  lex w (a ++ 32%N :: rest) =
    (ts1 <- lex w a ;; ts2 <- lex WNone rest ;; Ok (ts1 ++ ts2)).
Proof.
  induction a as [|c a IH]; intros w rest.
  - simpl. rewrite continues_space. reflexivity.
  - simpl. destruct (continues w c); [apply IH|].
    destruct (finish w) as [ts0|e]; [|reflexivity]. simpl.
    destruct (start_of c) as [|w'|t|]; [| | |reflexivity]; rewrite IH;
      match goal with
      | |- context [lex ?v a] => destruct (lex v a); [|reflexivity]
      end; simpl;
      (destruct (lex WNone rest); simpl; [|reflexivity]);
      now rewrite <- ?app_assoc.
Qed.

(** The word [x] between spaces is read as a name. *)
Lemma lex_x (b : pystr) :
  lex WNone (str "x " ++ b) = (ts <- lex WNone b ;; Ok (TName (str "x") :: ts)).
Proof. simpl. destruct (lex WNone b); reflexivity. Qed.

Lemma lex_around_x (a b : pystr) :
  lex WNone (a ++ str " x " ++ b) =
    (ts1 <- lex WNone a ;;
     ts2 <- lex WNone b ;;
     Ok (ts1 ++ TName (str "x") :: ts2)).
Proof.
  change (a ++ str " x " ++ b) with (a ++ 32%N :: (str "x " ++ b)).
  rewrite lex_space, lex_x.
  destruct (lex WNone a); [|reflexivity]. simpl.
  destruct (lex WNone b); reflexivity.
Qed.

(** ** A name that is read stays in the tree, and its evaluation raises *)

Fixpoint has_name (e : expr) : bool :=
  match e with
  | EName _ => true
  | ENum _ | ETuple => false
  | EUn _ e1 => has_name e1
  | EBin _ l r => has_name l || has_name r
  end.

Definition named (es : list expr) : Prop := existsb has_name es = true.

Lemma reduce1_named (o : opitem) (es es' : list expr) :
  reduce1 o es = Some es' -> named es -> named es'.
Proof.
  unfold named.
  destruct o as [|u|b]; simpl; [discriminate| |].
  - destruct es as [|e es]; [discriminate|].
    intros H; injection H as <-. trivial.
  - destruct es as [|r [|l es]]; try discriminate.
    intros H; injection H as <-. simpl.
    destruct (has_name l), (has_name r); simpl; trivial.
Qed.

Lemma reduce_while_named (p : nat) (os : list opitem) :
  forall (es : list expr) (os' : list opitem) (es' : list expr),
  reduce_while p os es = Some (os', es') -> named es -> named es'.
Proof.
  induction os as [|o os IH]; intros es os' es'; simpl.
  - intros H; injection H as <- <-. trivial.
  - destruct (p <=? prec_of o)%nat.
    + destruct (reduce1 o es) as [es1|] eqn:E; [|discriminate].
      intros H Hn. apply (IH _ _ _ H).
      apply (reduce1_named _ _ _ E Hn).
    + intros H; injection H as <- <-. trivial.
Qed.

Lemma push_binop_named (b : binop) (st st' : pstate) :
  push_binop b st = Ok st' -> named (operands st) -> named (operands st').
Proof.
  unfold push_binop.
  destruct (reduce_while _ _ _) as [[os es]|] eqn:E; [|discriminate].
  intros H; injection H as <-. simpl.
  apply (reduce_while_named _ _ _ _ _ E).
Qed.

Lemma pstep_named (st st' : pstate) (t : token) :
  pstep st t = Ok st' -> named (operands st) -> named (operands st').
Proof.
  unfold pstep. destruct (want_operand st).
  - destruct t; try discriminate;
      try (intros H; injection H as <-; unfold named; simpl;
           intros Hn; now rewrite ?Hn, ?orb_true_r).
    destruct (pending st) as [|[| |] os]; try discriminate.
    intros H; injection H as <-. trivial.
  - destruct t; try discriminate; try apply push_binop_named.
    destruct (reduce_while _ _ _) as [[[|[| |] os] es]|] eqn:E;
      try discriminate.
    intros H; injection H as <-. simpl.
    apply (reduce_while_named _ _ _ _ _ E).
Qed.

Lemma pstep_name (st st' : pstate) (n : pystr) :
  pstep st (TName n) = Ok st' -> named (operands st').
Proof.
  unfold pstep. destruct (want_operand st); [|discriminate].
  intros H; injection H as <-. reflexivity.
Qed.

Lemma psteps_named (ts : list token) : forall st st' : pstate,
  psteps st ts = Ok st' -> named (operands st) -> named (operands st').
Proof.
  induction ts as [|t ts IH]; intros st st'; simpl.
  - intros H; injection H as <-. trivial.
  - destruct (pstep st t) as [st1|e] eqn:E; [|discriminate]. simpl.
    intros H Hn. apply (IH _ _ H). apply (pstep_named _ _ _ E Hn).
Qed.

Lemma psteps_through_name (ts1 ts2 : list token) (n : pystr) :
  forall st st' : pstate,
  psteps st (ts1 ++ TName n :: ts2) = Ok st' -> named (operands st').
Proof.
  induction ts1 as [|t ts1 IH]; intros st st'; simpl.
  - destruct (pstep st (TName n)) as [st1|e] eqn:E; [|discriminate]. simpl.
    intros H. apply (psteps_named _ _ _ H). apply (pstep_name _ _ _ E).
  - destruct (pstep st t) as [st1|e]; [|discriminate]. simpl. apply IH.
Qed.

Lemma pfinish_named (st : pstate) (e : expr) :
  pfinish st = Ok e -> named (operands st) -> has_name e = true.
Proof.
  unfold pfinish. destruct (want_operand st); [discriminate|].
  destruct (reduce_while _ _ _) as [[[|o os] [|e1 [|e2 es]]]|] eqn:E;
    try discriminate.
  intros H; injection H as <-. intros Hn.
  apply (reduce_while_named _ _ _ _ _ E) in Hn.
  unfold named in Hn. simpl in Hn. now rewrite orb_false_r in Hn.
Qed.

Lemma eval_named (e : expr) :
  has_name e = true -> exists x, eval_expr e = Raise x.
Proof.
  induction e as [v|n| |u e IH|b l IHl r IHr]; simpl; try discriminate.
  - eauto.
  - intros H. destruct (IH H) as [x ->]. simpl. eauto.
  - intros H. destruct (has_name l).
    + destruct (IHl eq_refl) as [x ->]. simpl. eauto.
    + destruct (IHr H) as [x ->]. destruct (eval_expr l); simpl; eauto.
Qed.

(** Whatever stands around it, an expression with the word [x] raises. *)
Lemma py_eval_around_x (a b : pystr) :
  exists e, py_eval (a ++ str " x " ++ b) = Raise e.
Proof.
  unfold py_eval. rewrite lex_around_x.
  destruct (lex WNone a) as [ts1|e]; [|simpl; eauto]. simpl.
  destruct (lex WNone b) as [ts2|e]; [|simpl; eauto]. simpl.
  unfold parse.
  destruct (psteps _ _) as [st|e] eqn:E; [|simpl; eauto]. simpl.
  destruct (pfinish st) as [ex|e] eqn:F; [|simpl; eauto]. simpl.
  apply eval_named. apply (pfinish_named _ _ F).
  apply (psteps_through_name _ _ _ _ _ E).
Qed.

(** ** Integer literals are read back as the integer *)

Lemma N_of_digits_acc (u : Decimal.uint) (p : positive) :
  fold_left (fun acc c => (acc * 10 + (c - 48))%N) (digits_of_uint u)
    (Npos p)
  = Npos (Pos.of_uint_acc u p).
Proof.
  revert p.
  induction u; intros p;
    cbn [digits_of_uint fold_left Pos.of_uint_acc]; trivial;
    rewrite <- IHu; f_equal; lia.
Qed.

Lemma N_of_digits_uint (u : Decimal.uint) :
  N_of_digits (digits_of_uint u) = N.of_uint u.
Proof.
  unfold N_of_digits, N.of_uint.
  induction u; cbn [digits_of_uint fold_left Pos.of_uint]; trivial;
    match goal with
    | |- fold_left _ _ ?x = _ =>
        let y := eval vm_compute in x in change x with y
    end; apply N_of_digits_acc.
Qed.

Lemma N_of_digits_str (n : N) : N_of_digits (str_of_N n) = n.
Proof. unfold str_of_N. now rewrite N_of_digits_uint, Unsigned.of_to. Qed.

Lemma nzhead_head (u : Decimal.uint) :
  match Decimal.nzhead u with Decimal.D0 _ => False | _ => True end.
Proof. induction u; simpl; trivial. Qed.

(** The decimal text of a natural number has no leading zero, unless it is
    "0". *)
Lemma str_of_N_decinteger (n : N) : valid_decinteger (str_of_N n) = true.
Proof.
  unfold str_of_N.
  assert (H : N.to_uint n = Decimal.unorm (N.to_uint n))
    by (rewrite <- Unsigned.to_of, Unsigned.of_to; reflexivity).
  rewrite H. unfold Decimal.unorm.
  pose proof (nzhead_head (N.to_uint n)) as Hh.
  destruct (Decimal.nzhead (N.to_uint n)); try contradiction; reflexivity.
Qed.

Lemma span_digits_all (ds : pystr) :
  all_digits ds -> span_digits ds = (ds, []).
Proof.
  induction 1 as [|c ds Hc _ IH]; simpl; [reflexivity|].
  now rewrite Hc, IH.
Qed.

Lemma parse_number_digits (ds : pystr) :
  all_digits ds -> valid_decinteger ds = true ->
  parse_number ds = Ok (VInt (Z.of_N (N_of_digits ds))).
Proof.
  intros Hd Hv. unfold parse_number.
  rewrite (span_digits_all ds Hd). rewrite app_nil_r.
  destruct ds as [|c ds]; [discriminate|].
  cbn [parse_exponent]. now rewrite Hv.
Qed.

Lemma digit_start (c : N) :
  is_ascii_digit c = true -> start_of c = StWord (WNum [c]).
Proof.
  intros H. unfold start_of. rewrite H.
  unfold is_ascii_digit in H. apply andb_true_iff in H as [L U].
  apply N.leb_le in L. apply N.leb_le in U.
  assert (N.eqb c 32 = false) as -> by (apply N.eqb_neq; lia).
  assert (N.eqb c 9 = false) as -> by (apply N.eqb_neq; lia).
  reflexivity.
Qed.

Lemma lex_digits (ds : pystr) : forall t : pystr,
  all_digits ds -> lex (WNum t) ds = finish (WNum (rev ds ++ t)).
Proof.
  induction ds as [|c ds IH]; intros t Hd; [reflexivity|].
  inversion Hd as [|c' ds' Hc Hds]; subst.
  cbn [lex continues]. rewrite Hc. cbn [orb extend].
  rewrite (IH (c :: t) Hds). simpl rev. now rewrite <- app_assoc.
Qed.

(** A digit string that is a decimal integer is one number token. *)
Lemma lex_decinteger (ds : pystr) :
  ds <> [] -> all_digits ds -> valid_decinteger ds = true ->
  lex WNone ds = Ok [TNum (VInt (Z.of_N (N_of_digits ds)))].
Proof.
  intros Hn Hd Hv. destruct ds as [|c ds]; [contradiction|].
  inversion Hd as [|c' ds' Hc Hds]; subst.
  cbn [lex continues finish bind]. rewrite (digit_start c Hc).
  rewrite (lex_digits ds [c] Hds). cbn [finish].
  replace (rev (rev ds ++ [c])) with (c :: ds)
    by (now rewrite rev_app_distr, rev_involutive).
  now rewrite (parse_number_digits (c :: ds) Hd Hv).
Qed.

Lemma str_of_N_digits (n : N) : all_digits (str_of_N n).
Proof. apply digits_of_uint_digits. Qed.

Lemma lex_str_of_N (n : N) :
  lex WNone (str_of_N n) = Ok [TNum (VInt (Z.of_N n))].
Proof.
  rewrite lex_decinteger.
  - now rewrite N_of_digits_str.
  - apply str_of_N_nonempty.
  - apply str_of_N_digits.
  - apply str_of_N_decinteger.
Qed.

(** [eval(str(z))] is [z], for every [int]. *)
Lemma py_eval_str_of_int (z : Z) : py_eval (str_of_int z) = Ok (VInt z).
Proof.
  unfold py_eval, str_of_int. destruct (z <? 0) eqn:E.
  - change (45%N :: str_of_N (Z.abs_N z))
      with ([] ++ 45%N :: str_of_N (Z.abs_N z)).
    cbn [app lex continues finish bind start_of N.eqb Pos.eqb orb
           is_ascii_digit is_ascii_alpha N.leb N.compare Pos.compare
           Pos.compare_cont andb].
    rewrite lex_str_of_N. simpl.
    apply Z.ltb_lt in E. f_equal. f_equal. lia.
  - rewrite lex_str_of_N. simpl.
    apply Z.ltb_ge in E. f_equal. f_equal. lia.
Qed.

(** Two naturals around a spaced operator are read as the operation on
    them. *)
Lemma py_eval_binary (a b : N) :
  py_eval (str_of_N a ++ str " + " ++ str_of_N b)
  = Ok (VInt (Z.of_N a + Z.of_N b))
  /\ py_eval (str_of_N a ++ str " - " ++ str_of_N b)
     = Ok (VInt (Z.of_N a - Z.of_N b))
  /\ py_eval (str_of_N a ++ str " * " ++ str_of_N b)
     = Ok (VInt (Z.of_N a * Z.of_N b))
  /\ py_eval (str_of_N a ++ str " / " ++ str_of_N b)
     = (f <- int_truediv (Z.of_N a) (Z.of_N b) ;; Ok (VFloat f)).
Proof.
  unfold py_eval.
  repeat split;
    match goal with
    | |- context [str_of_N a ++ str ?o ++ str_of_N b] =>
        change (str_of_N a ++ str o ++ str_of_N b)
          with (str_of_N a ++ 32%N :: (tl (str o) ++ str_of_N b))
    end;
    rewrite lex_space, lex_str_of_N; cbn [bind];
    cbn [tl str map list_ascii_of_string N_of_ascii N_of_digits app
           lex continues finish bind start_of N.eqb Pos.eqb orb
           is_ascii_digit is_ascii_alpha N.leb N.compare Pos.compare
           Pos.compare_cont andb];
    rewrite lex_str_of_N; reflexivity.
Qed.

(** ** A display that starts with "Error" cannot be evaluated *)

Lemma not_keyword_E (w : pystr) : mem (69%N :: w) keywords = false.
Proof. reflexivity. Qed.

Lemma lex_name_E (s : pystr) : forall t : pystr,
  (exists e, lex (WName (t ++ [69%N])) s = Raise e)
  \/ (exists n ts, lex (WName (t ++ [69%N])) s = Ok (TName n :: ts)).
Proof.
  induction s as [|c s IH]; intros t.
  - right. cbn [lex finish]. rewrite rev_app_distr. cbn [rev app].
    rewrite not_keyword_E. eauto.
  - cbn [lex]. destruct (continues _ c).
    + apply (IH (c :: t)).
    + cbn [finish]. rewrite rev_app_distr. cbn [rev app].
      rewrite not_keyword_E. cbn [bind].
      destruct (start_of c) as [|w|k|]; [| | |left; eauto];
        match goal with
        | |- context [lex ?v s] => destruct (lex v s) as [ts|e]
        end; cbn [bind app]; eauto.
Qed.

Lemma parse_name_first (n : pystr) (ts : list token) :
  exists e, (x <- parse (TName n :: ts) ;; eval_expr x) = Raise e.
Proof.
  unfold parse.
  destruct (psteps _ _) as [st|e] eqn:E; [|simpl; eauto]. cbn [bind].
  destruct (pfinish st) as [ex|e] eqn:F; [|simpl; eauto]. cbn [bind].
  apply eval_named. apply (pfinish_named _ _ F).
  apply (psteps_through_name [] ts n _ _ E).
Qed.

Lemma py_eval_error_prefix (rest : pystr) :
  exists e, py_eval (canonical (str "Error" ++ rest)) = Raise e.
Proof.
  rewrite canonical_app.
  change (canonical (str "Error")) with (69%N :: str "rror").
  unfold py_eval. cbn [app lex continues finish bind].
  change (start_of 69) with (StWord (WName ([] ++ [69%N]))). cbn iota.
  destruct (lex_name_E (str "rror" ++ canonical rest) [])
    as [[e ->] | (n & ts & ->)]; [simpl; eauto|].
  cbn [bind app]. apply parse_name_first.
Qed.

(* ================================================================== *)
(** * Facts about the engine *)
(* ================================================================== *)

Lemma app_nonempty_l (a b : pystr) : a <> [] -> a ++ b <> [].
Proof. destruct a; [congruence | discriminate]. Qed.

Lemma app_nonempty_r (a b : pystr) : b <> [] -> a ++ b <> [].
Proof. destruct a, b; simpl; congruence. Qed.

Lemma error_text_nonempty : error_text <> [].
Proof. discriminate. Qed.

Lemma drop_last_nonempty (d : pystr) :
  (1 <? length d)%nat = true -> drop_last d <> [].
Proof.
  destruct d as [|a [|b d]]; simpl; discriminate.
Qed.

Lemma try_except_nonempty (body : result pystr) :
  (forall t, body = Ok t -> t <> []) ->
  try_except body (fun _ => error_text) <> [].
Proof.
  intros H. destruct body as [t|e]; simpl.
  - now apply H.
  - apply error_text_nonempty.
Qed.

Lemma bind_ok {A B} (r : result A) (k : A -> result B) (b : B) :
  (x <- r ;; k x) = Ok b -> exists a, r = Ok a /\ k a = Ok b.
Proof. destruct r as [a|e]; simpl; [eauto | discriminate]. Qed.

Lemma bind_raise {A B} (r : result A) (k : A -> result B) (e : exn) :
  r = Raise e -> (x <- r ;; k x) = Raise e.
Proof. now intros ->. Qed.

Lemma apply_function_nonempty (f : float -> result float) (d : pystr) :
  apply_function f d <> [].
Proof.
  apply try_except_nonempty. intros t H.
  apply bind_ok in H as (v & _ & H).
  apply bind_ok in H as (r & _ & H).
  apply bind_ok in H as (r8 & _ & H).
  injection H as <-. apply str_of_float_nonempty.
Qed.

Lemma apply_percent_nonempty (d : pystr) : apply_percent d <> [].
Proof.
  apply try_except_nonempty. intros t H.
  apply bind_ok in H as (v & _ & H).
  apply bind_ok in H as (h & _ & H).
  apply bind_ok in H as (q & _ & H).
  injection H as <-. apply str_of_float_nonempty.
Qed.

Lemma format_result_nonempty (v : value) (t : pystr) :
  format_result v = Ok t -> t <> [].
Proof.
  destruct v as [z|f|]; simpl.
  - intros H. injection H as <-. apply str_of_int_nonempty.
  - destruct (is_integer f).
    + intros H. apply bind_ok in H as (z & _ & H).
      injection H as <-. apply str_of_int_nonempty.
    + intros H. apply bind_ok in H as (r & Hr & H).
      apply bind_ok in Hr as (r' & _ & Hr).
      injection Hr as <-. injection H as <-.
      apply str_of_float_nonempty.
  - discriminate.
Qed.

Lemma apply_equals_nonempty (s : state) :
  display s <> [] -> display (apply_equals s) <> [].
Proof.
  intros Hs. unfold apply_equals.
  destruct (py_eval (canonical (display s))) as [v|e]; simpl;
    [|apply error_text_nonempty].
  destruct (format_result v) as [t|e] eqn:E; simpl;
    [|apply error_text_nonempty].
  eapply format_result_nonempty; eassumption.
Qed.

Create HintDb nonempty.

#[local] Hint Resolve app_nonempty_l app_nonempty_r error_text_nonempty
  drop_last_nonempty apply_function_nonempty apply_percent_nonempty
  apply_equals_nonempty str_of_float_nonempty : nonempty.

Section EngineFacts.

Variable unicode_digit : N -> bool.
Variables math_sin math_cos math_tan math_log10 math_log
  : float -> result float.
Variable float_pow : float -> float -> result float.

Local Abbreviation dispatch_h :=
  (dispatch unicode_digit math_sin math_cos math_tan math_log10 math_log
     float_pow).
Local Abbreviation loop_h :=
  (loop_body unicode_digit math_sin math_cos math_tan math_log10 math_log
     float_pow).
Local Abbreviation apply_h :=
  (apply_token unicode_digit math_sin math_cos math_tan math_log10
     math_log float_pow).
Local Abbreviation run_h :=
  (run unicode_digit math_sin math_cos math_tan math_log10 math_log
     float_pow).

(** The chain never raises: the outer [except] of the loop is never
    entered. *)
Lemma dispatch_total (s : state) (cmd : pystr) :
  exists s', dispatch_h s cmd = Ok s'.
Proof.
  unfold dispatch.
  repeat match goal with
         | |- context [if ?b then _ else _] => destruct b
         end; eauto.
Qed.

Lemma dispatch_nonempty (s s' : state) (cmd : pystr) :
  cmd <> [] -> display s <> [] ->
  dispatch_h s cmd = Ok s' -> display s' <> [].
Proof.
  intros Hc Hs. unfold dispatch.
  repeat match goal with
         | |- context [if ?b then _ else _] => destruct b eqn:?
         end;
    intros H;
    apply (f_equal (fun r => match r with
                             | Ok x => display x
                             | Raise _ => []
                             end)) in H;
    cbn [display set_display] in H; rewrite <- H;
    auto with nonempty; discriminate.
Qed.

Lemma apply_token_nonempty (s : state) (cmd : pystr) :
  display s <> [] -> display (apply_h s cmd) <> [].
Proof.
  intros Hs. unfold apply_token, loop_body.
  destruct cmd as [|c cmd]; [assumption|].
  destruct (mem _ _); [assumption|].
  destruct (_ || _); [discriminate|].
  destruct (pystr_eqb _ _); [assumption|].
  destruct (dispatch_total s (c :: cmd)) as [s' E].
  rewrite E. simpl.
  apply (dispatch_nonempty s s' (c :: cmd)); [discriminate | assumption..].
Qed.

Lemma run_app (s : state) (a b : list pystr) :
  run_h s (a ++ b) = run_h (run_h s a) b.
Proof. apply fold_left_app. Qed.

Lemma run_nonempty (cmds : list pystr) (s : state) :
  display s <> [] -> display (run_h s cmds) <> [].
Proof.
  revert s. induction cmds as [|c cmds IH]; intros s Hs; simpl.
  - assumption.
  - apply IH, apply_token_nonempty, Hs.
Qed.

(** ** Operator tokens *)

Lemma apply_operator (s : state) (op : pystr) :
  In op operators ->
  apply_h s op =
    if pystr_eqb (display s) (str "0") then s
    else set_display s (display s ++ str " " ++ op ++ str " ").
Proof.
  intros H. unfold operators in H.
  repeat destruct H as [<-|H]; try contradiction;
    unfold apply_token, loop_body, dispatch; simpl;
    destruct (pystr_eqb (display s) _); reflexivity.
Qed.

(** C1, as amended: on a buffer other than "0" an operator token (one of
    [+ - * x × / ÷]) appends the token itself between two spaces, the
    glyphs [×] and [÷] unchanged; on the buffer "0" it changes nothing.
    The canonical [*] and [/] appear only in the copy of the buffer that
    is handed to the evaluator. *)
Theorem operator_appends_token_as_typed (s : state) (op : pystr) :
  In op operators ->
  (display s <> str "0" ->
   apply_h s op = set_display s (display s ++ str " " ++ op ++ str " "))
  /\ (display s = str "0" -> apply_h s op = s)
  /\ canonical [cp_times] = str "*"
  /\ canonical [cp_divide] = str "/".
Proof.
  intros H. rewrite (apply_operator s op H).
  split; [|split; [|split; reflexivity]].
  - intros Hd. apply pystr_eqb_neq in Hd. now rewrite Hd.
  - intros Hd. apply pystr_eqb_eq in Hd. now rewrite Hd.
Qed.

(** ** Failures *)

Lemma apply_equals_token (s : state) :
  apply_h s (str "=") = apply_equals s.
Proof. reflexivity. Qed.

Lemma apply_function_raise (f : float -> result float) (d : pystr) (e : exn) :
  eval_float d = Raise e -> apply_function f d = error_text.
Proof. unfold apply_function. now intros ->. Qed.

Lemma math_sqrt_negative (v : float) :
  is_negative v = true -> math_sqrt v = Raise ValueError.
Proof. destruct v as [s|[|]| |[|] m e]; try discriminate; reflexivity. Qed.

Lemma apply_function_cases (f : float -> result float) (d : pystr) :
  (forall e, eval_float d = Raise e -> apply_function f d = error_text)
  /\ (forall v e, eval_float d = Ok v -> f v = Raise e ->
       apply_function f d = error_text)
  /\ (forall v r e, eval_float d = Ok v -> f v = Ok r ->
       round_float r 8 = Raise e -> apply_function f d = error_text)
  /\ (forall v r r8, eval_float d = Ok v -> f v = Ok r ->
       round_float r 8 = Ok r8 -> apply_function f d = str_of_float r8).
Proof.
  unfold apply_function. repeat split.
  - now intros e ->.
  - intros v e -> H. simpl. now rewrite H.
  - intros v r e -> H1 H2. simpl. rewrite H1. simpl. now rewrite H2.
  - intros v r r8 -> H1 H2. simpl. rewrite H1. simpl. now rewrite H2.
Qed.

(** C3: no token makes the chain raise, and every failure ends in the text
    "Error" on the display.  For [=]: a failure of the evaluation (division
    by zero in "5 / 0", malformed syntax in "5 + ", unbalanced parentheses
    in "(1 + 2") and a failure of the printing of its value (the empty
    tuple of "()"), the history staying as it was.  For each function key
    and power shortcut: a failure of the evaluation, of the function itself
    (the root of a negative number) and of the rounding.  For [%]: a
    failure of the evaluation, the one step of it that can fail. *)
Theorem failures_become_error (s : state) (cmd : pystr) :
  (exists s', dispatch_h s cmd = Ok s')
  /\ (forall e, py_eval (canonical (display s)) = Raise e ->
      apply_h s (str "=") = set_display s (str "Error"))
  /\ (forall v e, py_eval (canonical (display s)) = Ok v ->
      format_result v = Raise e ->
      apply_h s (str "=") = set_display s (str "Error"))
  /\ Forall
       (fun tf : pystr * (float -> result float) =>
          apply_h s (fst tf)
          = set_display s (apply_function (snd tf) (display s)))
       [(str "sin", fun v => math_sin (math_radians v));
        (str "cos", fun v => math_cos (math_radians v));
        (str "tan", fun v => math_tan (math_radians v));
        (str "log", math_log10);
        (str "ln", math_log);
        (str "sqrt", math_sqrt);
        ([cp_sqrt], math_sqrt);
        (str "x" ++ [cp_sup2],
         fun v => float_pow v (float_of_decimal false 2 0));
        (str "x^2", fun v => float_pow v (float_of_decimal false 2 0));
        (str "x" ++ [cp_sup3],
         fun v => float_pow v (float_of_decimal false 3 0));
        (str "x^3", fun v => float_pow v (float_of_decimal false 3 0))]
  /\ (forall f : float -> result float,
        (forall e, eval_float (display s) = Raise e ->
                   apply_function f (display s) = str "Error")
        /\ (forall v e, eval_float (display s) = Ok v -> f v = Raise e ->
                        apply_function f (display s) = str "Error")
        /\ (forall v r e, eval_float (display s) = Ok v -> f v = Ok r ->
                          round_float r 8 = Raise e ->
                          apply_function f (display s) = str "Error"))
  /\ (forall v, eval_float (display s) = Ok v -> is_negative v = true ->
      apply_h s (str "sqrt") = set_display s (str "Error"))
  /\ apply_h s (str "%") = set_display s (apply_percent (display s))
  /\ (forall e, eval_float (display s) = Raise e ->
      apply_percent (display s) = str "Error")
  /\ py_eval (canonical (str "5 / 0")) = Raise ZeroDivisionError
  /\ py_eval (canonical (str "5 + ")) = Raise SyntaxError
  /\ py_eval (canonical (str "(1 + 2")) = Raise SyntaxError
  /\ run_h initial [str "5"; str "/"; str "0"; str "="]
     = mk_state (str "Error") []
  /\ run_h initial [str "("; str ")"; str "="] = mk_state (str "Error") []
  /\ run_h initial [str "1"; str "-"; str "5"; str "sqrt"]
     = mk_state (str "Error") [].
Proof.
  split; [apply dispatch_total|].
  split.
  { intros e He. rewrite apply_equals_token. unfold apply_equals.
    now rewrite He. }
  split.
  { intros v e Hv He. rewrite apply_equals_token. unfold apply_equals.
    rewrite Hv. simpl. now rewrite He. }
  split; [repeat constructor|].
  split.
  { intros f. destruct (apply_function_cases f (display s))
      as (H1 & H2 & H3 & _).
    split; [exact H1|]. split; [exact H2 | exact H3]. }
  split.
  { intros v Hv Hn.
    destruct (apply_function_cases math_sqrt (display s)) as (_ & H2 & _).
    change (apply_h s (str "sqrt"))
      with (set_display s (apply_function math_sqrt (display s))).
    now rewrite (H2 v ValueError Hv (math_sqrt_negative v Hn)). }
  split; [reflexivity|].
  split.
  { intros e He. unfold apply_percent. now rewrite He. }
  repeat (split; [vm_compute; reflexivity|]). vm_compute; reflexivity.
Qed.

(** ** The decimal point *)

(** C5, as amended: the token [.] is taken only when the buffer holds no
    decimal point anywhere; it then replaces the buffer "0", as a digit
    does, and is appended to any other buffer.  From "0" a first [.] gives
    the buffer "." and a second one changes nothing. *)
Theorem decimal_point_once (s : state) :
  apply_h s (str ".") =
    (if contains 46 (display s) then s
     else if pystr_eqb (display s) (str "0") then set_display s (str ".")
          else set_display s (display s ++ str "."))
  /\ run_h initial [str "."] = mk_state (str ".") []
  /\ run_h initial [str "."; str "."] = mk_state (str ".") [].
Proof.
  split; [|split; reflexivity].
  unfold apply_token, loop_body, dispatch; simpl.
  destruct (existsb (N.eqb 46) (display s)) eqn:E;
    unfold contains; rewrite E; simpl; [reflexivity|].
  destruct (pystr_eqb (display s) _); reflexivity.
Qed.

(** ** [DEL] *)

Lemma lower_cp_letter (c k : N) :
  (97 <= k <= 122)%N -> lower_cp c = k -> c = k \/ c = (k - 32)%N.
Proof.
  unfold lower_cp. intros Hk.
  destruct ((65 <=? c)%N && (c <=? 90)%N) eqn:E.
  - intros H. right. lia.
  - intros H. now left.
Qed.

Lemma lower_del (cmd : pystr) :
  lower cmd = str "del" ->
  exists c1 c2 c3,
    cmd = [c1; c2; c3] /\ (c1 = 100 \/ c1 = 68)%N
    /\ (c2 = 101 \/ c2 = 69)%N /\ (c3 = 108 \/ c3 = 76)%N.
Proof.
  destruct cmd as [|c1 [|c2 [|c3 [|c4 cmd]]]]; try discriminate.
  intros H. injection H as H1 H2 H3.
  exists c1, c2, c3. split; [reflexivity|].
  repeat split; apply lower_cp_letter; auto; lia.
Qed.

Lemma apply_del (s : state) (cmd : pystr) :
  lower cmd = str "del" ->
  apply_h s cmd =
    set_display s (if (1 <? length (display s))%nat
                   then drop_last (display s) else str "0").
Proof.
  intros H. apply lower_del in H as (c1 & c2 & c3 & -> & H1 & H2 & H3).
  destruct H1 as [-> | ->], H2 as [-> | ->], H3 as [-> | ->]; reflexivity.
Qed.

(** C8: [DEL] (in any case of its letters) removes the last character of
    the buffer, and resets a buffer of one character to "0". *)
Theorem del_removes_last_character (s : state) (cmd b : pystr) (c : N) :
  lower cmd = str "del" ->
  display s = b ++ [c] ->
  apply_h s cmd = set_display s (match b with [] => str "0" | _ => b end).
Proof.
  intros Hcmd Hd. rewrite (apply_del s cmd Hcmd), Hd.
  unfold drop_last. rewrite removelast_last, length_app. simpl.
  destruct b as [|x b]; [reflexivity|].
  simpl. replace (length b + 1)%nat with (S (length b)) by lia.
  reflexivity.
Qed.

(** ** The display is never empty *)

(** C9: every token maps a state with a non-empty display to a state with a
    non-empty display, so the display of no run from "0" is empty. *)
Theorem display_never_empty :
  (forall (s : state) (cmd : pystr),
      display s <> [] -> display (apply_h s cmd) <> [])
  /\ (forall cmds : list pystr, display (run_h initial cmds) <> []).
Proof.
  split.
  - apply apply_token_nonempty.
  - intros cmds. apply run_nonempty. discriminate.
Qed.

(** ** The letter [x] *)

(** C10: the letter [x] is taken as an operator and appended between two
    spaces; the copy of the buffer handed to the evaluator keeps it, for
    only the glyphs [×] and [÷] are replaced; and [=] on a buffer that
    holds the operator [x], whatever stands on its two sides, leaves
    "Error". *)
Theorem letter_x_ends_in_error (s : state) (a b : pystr) :
  (display s <> str "0" ->
   apply_h s (str "x") = set_display s (display s ++ str " x "))
  /\ canonical (a ++ str " x " ++ b) = canonical a ++ str " x " ++ canonical b
  /\ (display s = a ++ str " x " ++ b ->
      apply_h s (str "=") = set_display s (str "Error")).
Proof.
  split; [|split].
  - intros Hd. rewrite apply_operator by (simpl; auto).
    apply pystr_eqb_neq in Hd. now rewrite Hd.
  - now rewrite !canonical_app.
  - intros Hd. rewrite apply_equals_token. unfold apply_equals.
    rewrite Hd, !canonical_app.
    change (canonical (str " x ")) with (str " x ").
    destruct (py_eval_around_x (canonical a) (canonical b)) as [e ->].
    reflexivity.
Qed.

(** ** The function keys and [%] *)

Lemma apply_sqrt_token (s : state) :
  apply_h s (str "sqrt") = set_display s (apply_function math_sqrt (display s)).
Proof. reflexivity. Qed.

Lemma apply_percent_token (s : state) :
  apply_h s (str "%") = set_display s (apply_percent (display s)).
Proof. reflexivity. Qed.

(** C7: "5" then [sqrt] leaves "2.23606798".  The function keys print the
    rounded float as it is: a text with a decimal point (or an exponent, or
    [inf], [nan]), "2.0" for the root of 4; [=] prints an integer-valued
    float as an [int], "4" for 8 / 2. *)
Theorem sqrt_key_rounds_to_8_decimals :
  run_h initial [str "5"; str "sqrt"] = mk_state (str "2.23606798") []
  /\ run_h initial [str "4"; str "sqrt"] = mk_state (str "2.0") []
  /\ run_h initial [str "8"; str "/"; str "2"; str "sqrt"]
     = mk_state (str "2.0") []
  /\ run_h initial [str "8"; str "/"; str "2"; str "="]
     = mk_state (str "4") [str "4"]
  /\ (forall (s : state) (v r r8 : float),
        eval_float (display s) = Ok v ->
        math_sqrt v = Ok r ->
        round_float r 8 = Ok r8 ->
        apply_h s (str "sqrt") = set_display s (str_of_float r8)
        /\ float_mark (str_of_float r8) = true)
  /\ (forall (s : state) (f : float) (z : Z),
        py_eval (canonical (display s)) = Ok (VFloat f) ->
        is_integer f = true ->
        int_of_float f = Ok z ->
        display (apply_h s (str "=")) = str_of_int z
        /\ float_mark (str_of_int z) = false).
Proof.
  split; [vm_compute; reflexivity|].
  split; [vm_compute; reflexivity|].
  split; [vm_compute; reflexivity|].
  split; [vm_compute; reflexivity|].
  split.
  - intros s v r r8 Hv Hr Hr8. split; [|apply str_of_float_mark].
    rewrite apply_sqrt_token. unfold apply_function.
    now rewrite Hv; simpl; rewrite Hr; simpl; rewrite Hr8.
  - intros s f z Hf Hi Hz. split; [|apply str_of_int_no_mark].
    rewrite apply_equals_token. unfold apply_equals.
    rewrite Hf. simpl. rewrite Hi, Hz. reflexivity.
Qed.

(** C6, what the code does: [%] prints [val / 100] as it is, with no
    rounding.  On the buffer "1.1" it leaves "0.011000000000000001", where
    the rounding of the other function keys would give "0.011". *)
Theorem percent_is_not_rounded :
  run_h initial [str "1"; str "."; str "1"; str "%"]
  = mk_state (str "0.011000000000000001") []
  /\ (r <- round_float (fdiv (float_of_decimal false 11 (-1)) (float_lit 100))
             8 ;;
      Ok (str_of_float r)) = Ok (str "0.011")
  /\ (forall (s : state) (v : float),
        eval_float (display s) = Ok v ->
        apply_h s (str "%")
        = set_display s (str_of_float (fdiv v (float_lit 100)))).
Proof.
  split; [vm_compute; reflexivity|].
  split; [vm_compute; reflexivity|].
  intros s v Hv. rewrite apply_percent_token. unfold apply_percent.
  rewrite Hv. reflexivity.
Qed.

(** ** [=] *)

(** C2, as amended: when the buffer evaluates to a number, [=] prints it,
    puts the text on the display and appends the same text to the history.
    An [int] and a float whose value is an integer [k] are printed as the
    decimal text of the integer, with no decimal point; any other finite
    float is printed as the float nearest to [n / 10 ^ 8], where [n] is the
    integer nearest to the value times [10 ^ 8], the even one at a tie.
    So "4 + 4" gives "8", "8 / 2" gives "4", "1 / 3" gives "0.33333333"
    and "4.35 * 100" gives "435.0". *)
Theorem equals_prints_and_records (s : state) (v : value) :
  py_eval (canonical (display s)) = Ok v ->
  number v ->
  (exists d,
      apply_h s (str "=") = mk_state d (history s ++ [d])
      /\ match v with
         | VInt z => d = str_of_int z /\ contains 46 d = false
         | VFloat (S754_zero _) => d = str "0"
         | VFloat (S754_finite sg m e) =>
             (exists k, fst (frac_of m e) = k * snd (frac_of m e)
                        /\ d = str_of_int (cond_Zopp sg k)
                        /\ contains 46 d = false)
             \/ ((forall k, fst (frac_of m e) <> k * snd (frac_of m e))
                 /\ exists n,
                      2 * Z.abs (n * snd (frac_of m e)
                                 - fst (frac_of m e) * 10 ^ 8)
                      <= snd (frac_of m e)
                      /\ (2 * Z.abs (n * snd (frac_of m e)
                                     - fst (frac_of m e) * 10 ^ 8)
                          = snd (frac_of m e) -> Z.even n = true)
                      /\ d = str_of_float
                               (float_of_decimal sg (Z.to_N n) (-8)))
         | VFloat (S754_infinity sg) => d = with_sign sg (str "inf")
         | VFloat S754_nan => d = str "nan"
         | VTuple => False
         end)
  /\ run_h initial [str "4"; str "+"; str "4"; str "="]
     = mk_state (str "8") [str "8"]
  /\ run_h initial [str "8"; str "/"; str "2"; str "="]
     = mk_state (str "4") [str "4"]
  /\ run_h initial [str "1"; str "/"; str "3"; str "="]
     = mk_state (str "0.33333333") [str "0.33333333"]
  /\ run_h initial [str "4"; str "."; str "3"; str "5"; str "*"; str "100";
                    str "="]
     = mk_state (str "435.0") [str "435.0"].
Proof.
  intros Hv Hn.
  split; [|repeat (split; [vm_compute; reflexivity|]);
           vm_compute; reflexivity].
  rewrite apply_equals_token. unfold apply_equals. rewrite Hv.
  cbn [bind].
  destruct v as [z|f|]; [| |contradiction].
  - eexists. split; [reflexivity|]. split; [reflexivity|].
    now apply str_of_int_contains.
  - destruct f as [sg|sg| |sg m e].
    + eexists. split; [reflexivity|]. reflexivity.
    + eexists. split; [reflexivity|]. reflexivity.
    + eexists. split; [reflexivity|]. reflexivity.
    + unfold format_result.
      destruct (is_integer (S754_finite sg m e)) eqn:I.
      * apply is_integer_spec in I as [k Hk].
        rewrite (int_of_float_spec sg m e k Hk).
        eexists. split; [reflexivity|]. left. exists k.
        split; [assumption|]. split; [reflexivity|].
        now apply str_of_int_contains.
      * pose proof (round_float_8_ok _ Hn I) as [r Hr].
        assert (Hk : forall k, fst (frac_of m e) <> k * snd (frac_of m e)).
        { intros k Hk.
          assert (is_integer (S754_finite sg m e) = true)
            by (apply is_integer_spec; eauto).
          congruence. }
        unfold round_value. rewrite Hr. cbn [bind try_except str_of_value].
        eexists. split; [reflexivity|]. right. split; [assumption|].
        pose proof (frac_of_pos m e) as [_ Pb].
        pose proof (round_half_even_spec (fst (frac_of m e) * 10 ^ 8)
                      (snd (frac_of m e)) Pb) as [N1 N2].
        exists (round_half_even (fst (frac_of m e) * 10 ^ 8,
                                 snd (frac_of m e))).
        split; [exact N1|]. split; [exact N2|].
        unfold round_float in Hr.
        change (323 <? 8) with false in Hr.
        change (8 <? -308) with false in Hr. cbn iota in Hr.
        rewrite scale10_8 in Hr.
        destruct (is_inf _) in Hr; [discriminate|].
        injection Hr as <-. reflexivity.
Qed.

(** ** Leaving the loop, clearing, and tokens that do nothing *)




(** ** The history *)

Lemma Ok_inj {A} (a b : A) : Ok a = Ok b -> a = b.
Proof. now intros [= ->]. Qed.

Lemma format_result_not_error (v : value) (d : pystr) :
  format_result v = Ok d -> pystr_eqb d (str "Error") = false.
Proof.
  intros H. apply pystr_eqb_neq. intros ->.
  destruct v as [z|f|]; simpl in H.
  - injection H as H.
    pose proof (str_of_int_contains 69 z eq_refl) as C.
    rewrite H in C. specialize (C ltac:(discriminate)). discriminate C.
  - destruct (is_integer f).
    + apply bind_ok in H as (z & _ & H). injection H as H.
      pose proof (str_of_int_contains 69 z eq_refl) as C.
      rewrite H in C. specialize (C ltac:(discriminate)). discriminate C.
    + apply bind_ok in H as (r & Hr & H).
      apply bind_ok in Hr as (r' & _ & Hr). injection Hr as <-.
      injection H as H. pose proof (str_of_float_mark r') as M.
      unfold str_of_value in H. rewrite H in M. discriminate M.
  - discriminate.
Qed.

Lemma apply_equals_history (s : state) :
  history (apply_equals s) = history s
  \/ (history (apply_equals s) = history s ++ [display (apply_equals s)]
      /\ pystr_eqb (display (apply_equals s)) (str "Error") = false).
Proof.
  unfold apply_equals.
  destruct (py_eval _) as [v|e]; cbn [bind try_except]; [|now left].
  destruct (format_result v) as [d|e] eqn:F; cbn [bind try_except];
    [|now left].
  right. split; [reflexivity|]. apply (format_result_not_error v d F).
Qed.

Lemma dispatch_history (s s' : state) (cmd : pystr) :
  dispatch_h s cmd = Ok s' ->
  history s' = history s
  \/ (cmd = str "=" /\ history s' = history s ++ [display s']
      /\ pystr_eqb (display s') (str "Error") = false).
Proof.
  unfold dispatch.
  repeat match goal with
         | |- context [if ?b then _ else _] => destruct b eqn:?
         end;
    intros H; apply Ok_inj in H; subst s';
    try (left; cbn [history set_display]; reflexivity).
  destruct (apply_equals_history s) as [E | [E1 E2]]; [now left|].
  right. split; [|split; assumption].
  now apply pystr_eqb_eq.
Qed.

Lemma apply_token_history (s : state) (cmd : pystr) :
  history (apply_h s cmd) = history s
  \/ (cmd = str "=" /\ history (apply_h s cmd)
                       = history s ++ [display (apply_h s cmd)]
      /\ pystr_eqb (display (apply_h s cmd)) (str "Error") = false).
Proof.
  unfold apply_token, loop_body.
  destruct cmd as [|c cmd]; [now left|].
  destruct (mem _ _); [now left|].
  destruct (_ || _); [now left|].
  destruct (pystr_eqb _ _); [now left|].
  destruct (dispatch_total s (c :: cmd)) as [s' E].
  rewrite E. cbn [try_except].
  apply (dispatch_history s s' (c :: cmd) E).
Qed.


(** ** Typing digits *)

Lemma pystr_eqb_head (x y : N) (a b : pystr) :
  x <> y -> pystr_eqb (x :: a) (y :: b) = false.
Proof. intros H. cbn [pystr_eqb]. apply N.eqb_neq in H. now rewrite H. Qed.

Lemma digit_range (c : N) : is_ascii_digit c = true -> (48 <= c <= 57)%N.
Proof.
  unfold is_ascii_digit. intros H. apply andb_true_iff in H as [L U].
  apply N.leb_le in L. apply N.leb_le in U. lia.
Qed.

Lemma isdigit_all_digits (cmd : pystr) :
  cmd <> [] -> all_digits cmd -> isdigit unicode_digit cmd = true.
Proof.
  intros Hn Hd. unfold isdigit. destruct cmd as [|c cmd]; [contradiction|].
  apply forallb_forall. intros x Hx.
  unfold all_digits in Hd. rewrite Forall_forall in Hd.
  specialize (Hd x Hx). unfold isdigit_cp.
  pose proof (digit_range x Hd) as R.
  assert ((x <? 128)%N = true) as -> by (apply N.ltb_lt; lia).
  exact Hd.
Qed.

Lemma apply_digits (s : state) (cmd : pystr) :
  cmd <> [] -> all_digits cmd ->
  apply_h s cmd =
    set_display s (if pystr_eqb (display s) (str "0") then cmd
                   else display s ++ cmd).
Proof.
  intros Hn Hd. pose proof (isdigit_all_digits cmd Hn Hd) as Hi.
  unfold apply_token, loop_body.
  destruct cmd as [|c cmd]; [contradiction|].
  inversion Hd as [|c' cmd' Hc Hcmd]; subst.
  pose proof (digit_range c Hc) as R.
  assert (L : lower_cp c = c).
  { unfold lower_cp.
    assert ((c <=? 90)%N && (65 <=? c)%N = false) as E.
    { apply andb_false_iff. right. apply N.leb_gt. lia. }
    rewrite andb_comm, E. reflexivity. }
  cbn [lower map mem existsb]. rewrite L.
  change (str "exit") with (101%N :: str "xit").
  change (str "quit") with (113%N :: str "uit").
  change (str "clear") with (99%N :: str "lear").
  change (str "ac") with (97%N :: str "c").
  change (str "help") with (104%N :: str "elp").
  rewrite !pystr_eqb_head by lia. cbn [orb].
  unfold dispatch. rewrite Hi. cbn [orb].
  destruct (pystr_eqb (display s) (str "0")); reflexivity.
Qed.

Lemma longer_than_one (a b : pystr) :
  a <> [] -> b <> [] -> pystr_eqb (a ++ b) (str "0") = false.
Proof.
  intros Ha Hb. destruct a as [|x [|y a]]; [contradiction| |].
  - destruct b as [|z b]; [contradiction|].
    cbn. now rewrite andb_false_r.
  - cbn. now rewrite andb_false_r.
Qed.

Lemma run_digits (rest : list pystr) : forall s : state,
  Forall (fun t => t <> [] /\ all_digits t) rest ->
  display s <> [] -> pystr_eqb (display s) (str "0") = false ->
  run_h s rest = set_display s (display s ++ concat rest).
Proof.
  induction rest as [|t rest IH]; intros s Hr Hs H0.
  - simpl. rewrite app_nil_r. now destruct s.
  - inversion Hr as [|t' rest' [Ht Hd] Hrest]; subst.
    cbn [run fold_left]. rewrite (apply_digits s t Ht Hd), H0.
    change (fold_left apply_h rest ?x) with (run_h x rest).
    rewrite IH; cbn [display set_display];
      [|assumption|now apply app_nonempty_l|now apply longer_than_one].
    unfold set_display. cbn [concat history].
    now rewrite app_assoc.
Qed.


(** ** [DEL] after a token *)

Lemma set_display_same (s : state) : set_display s (display s) = s.
Proof. now destruct s. Qed.

Lemma del_after_append (s : state) (d : pystr) (c : N) :
  d <> [] ->
  apply_h (set_display s (d ++ [c])) (str "DEL") = set_display s d.
Proof.
  intros Hd. rewrite apply_del by reflexivity.
  cbn [display set_display]. unfold drop_last.
  rewrite removelast_last, length_app. cbn [length].
  destruct d as [|x d]; [contradiction|].
  cbn [length]. replace (S (length d) + 1)%nat with (S (S (length d))) by lia.
  reflexivity.
Qed.


(** ** Integers typed in and evaluated *)

Lemma replace_absent (o n : N) (t : pystr) :
  contains o t = false -> replace o n t = t.
Proof.
  unfold contains, replace. induction t as [|x t IH]; cbn [existsb map].
  - reflexivity.
  - intros H. apply orb_false_iff in H as [Hx Ht].
    rewrite N.eqb_sym, Hx, IH by assumption. reflexivity.
Qed.

Lemma canonical_digits (t : pystr) : all_digits t -> canonical t = t.
Proof.
  intros H. unfold canonical.
  rewrite (replace_absent cp_times) by now apply all_digits_contains.
  apply replace_absent. now apply all_digits_contains.
Qed.

Lemma canonical_int (z : Z) : canonical (str_of_int z) = str_of_int z.
Proof.
  unfold canonical.
  rewrite (replace_absent cp_times)
    by (apply str_of_int_contains; [reflexivity|discriminate]).
  apply replace_absent.
  apply str_of_int_contains; [reflexivity|discriminate].
Qed.

Lemma str_of_N_not_zero (a : N) : a <> 0%N -> str_of_N a <> str "0".
Proof.
  intros Ha E. apply Ha. rewrite <- (N_of_digits_str a), E. reflexivity.
Qed.

Lemma equals_int (s : state) (z : Z) :
  py_eval (canonical (display s)) = Ok (VInt z) ->
  apply_equals s = mk_state (str_of_int z) (history s ++ [str_of_int z]).
Proof. intros H. unfold apply_equals. rewrite H. reflexivity. Qed.

Lemma equals_raise (s : state) (e : exn) :
  py_eval (canonical (display s)) = Raise e ->
  apply_equals s = set_display s error_text.
Proof. intros H. unfold apply_equals. rewrite H. reflexivity. Qed.

Lemma run_binary (A B op : pystr) :
  A <> [] -> all_digits A -> A <> str "0" ->
  B <> [] -> all_digits B -> In op operators ->
  run_h initial [A; op; B; str "="]
  = apply_equals (mk_state (A ++ (str " " ++ op ++ str " ") ++ B) []).
Proof.
  intros HA DA ZA HB DB Ho. unfold run. cbn [fold_left].
  rewrite (apply_digits initial A HA DA).
  cbn [display initial]. rewrite pystr_eqb_refl.
  rewrite (apply_operator _ op Ho). cbn [display set_display].
  apply pystr_eqb_neq in ZA. rewrite ZA.
  rewrite (apply_digits _ B HB DB). cbn [display set_display].
  rewrite longer_than_one by (try assumption; now destruct op).
  rewrite apply_equals_token. unfold set_display.
  cbn [history initial display]. now rewrite <- app_assoc.
Qed.




(** ** After an error *)

Definition typed (t : pystr) : Prop :=
  (t <> [] /\ all_digits t) \/ In t operators
  \/ t = str "(" \/ t = str ")".

Lemma not_zero_prefix (rest : pystr) :
  pystr_eqb (str "Error" ++ rest) (str "0") = false.
Proof. reflexivity. Qed.

Lemma apply_parens (s : state) :
  apply_h s (str "(")
  = (if pystr_eqb (display s) (str "0") then set_display s (str "(")
     else set_display s (display s ++ str "("))
  /\ apply_h s (str ")") = set_display s (display s ++ str ")").
Proof.
  split; [|reflexivity].
  unfold apply_token, loop_body, dispatch. cbn.
  now destruct (pystr_eqb (display s) [48%N]).
Qed.

Lemma typed_keeps_error (s : state) (rest t : pystr) :
  display s = str "Error" ++ rest -> typed t ->
  exists rest', display (apply_h s t) = str "Error" ++ rest'
                /\ history (apply_h s t) = history s.
Proof.
  intros H [[Hn Hd] | [Ho | [-> | ->]]].
  - rewrite (apply_digits s t Hn Hd), H, not_zero_prefix.
    cbn [display set_display history]. rewrite <- app_assoc. eauto.
  - rewrite (apply_operator s t Ho), H, not_zero_prefix.
    cbn [display set_display history]. rewrite <- app_assoc. eauto.
  - rewrite (proj1 (apply_parens s)), H, not_zero_prefix.
    cbn [display set_display history]. rewrite <- app_assoc. eauto.
  - rewrite (proj2 (apply_parens s)), H.
    cbn [display set_display history]. rewrite <- app_assoc. eauto.
Qed.

Lemma run_keeps_error (toks : list pystr) : forall (s : state) (rest : pystr),
  display s = str "Error" ++ rest -> Forall typed toks ->
  exists rest', display (run_h s toks) = str "Error" ++ rest'
                /\ history (run_h s toks) = history s.
Proof.
  induction toks as [|t toks IH]; intros s rest H Ht.
  - exists rest. now split.
  - inversion Ht as [|t' toks' T1 T2]; subst.
    destruct (typed_keeps_error s rest t H T1) as (r1 & D1 & H1).
    destruct (IH (apply_h s t) r1 D1 T2) as (r2 & D2 & H2).
    exists r2. unfold run in *. cbn [fold_left]. split; [exact D2|].
    now rewrite H2.
Qed.

Lemma eval_float_error_prefix (rest : pystr) :
  exists e, eval_float (str "Error" ++ rest) = Raise e.
Proof.
  destruct (py_eval_error_prefix rest) as [e He].
  exists e. unfold eval_float. now rewrite He.
Qed.


(** ** The [π] key *)


(** ** The one-shot command line *)

Lemma is_integer_int (r : float) :
  is_integer r = true -> exists z, int_of_float r = Ok z.
Proof.
  destruct r as [sg|sg| |sg m e]; cbn [is_integer int_of_float];
    try discriminate; intros _; eauto.
  destruct (frac_of m e) as [p q]. eauto.
Qed.

Lemma float_rem_ok (a b : float) :
  is_zero b = false -> exists r, float_rem a b = Ok r.
Proof.
  intros H. unfold float_rem. rewrite H.
  destruct (negb _); [destruct (xorb _ _)|]; eauto.
Qed.


End EngineFacts.









(** The witness of [operator_appends_token_as_typed]: the token [×] on the
    buffer "5". *)
Lemma operator_appends_token_as_typed_witness :
  apply_plain (mk_state (str "5") []) [cp_times]
  = mk_state (str "5 " ++ [cp_times] ++ str " ") [].
Proof.
  refine (proj1 (operator_appends_token_as_typed no_digit no_math no_math
                   no_math no_math no_math no_pow
                   (mk_state (str "5") []) [cp_times] _) _).
  - simpl. do 4 right. left. reflexivity.
  - discriminate.
Defined.

(** C1 as stated fails: on the buffer "5" the token [×] appends the glyph,
    and not the canonical " * ". *)
Lemma operator_not_canonical_counterexample :
  display (apply_plain (mk_state (str "5") []) [cp_times])
  = str "5 " ++ [cp_times] ++ str " "
  /\ display (apply_plain (mk_state (str "5") []) [cp_times])
     <> str "5" ++ str " * ".
Proof. split; [reflexivity | discriminate]. Qed.

(** The witness of [failures_become_error]: [=] on the buffers "5 / 0" and
    "()", and [sqrt] on the buffer "1 - 5". *)
Lemma failures_become_error_witness :
  apply_plain (mk_state (str "5 / 0") []) (str "=")
  = mk_state (str "Error") []
  /\ apply_plain (mk_state (str "()") []) (str "=")
     = mk_state (str "Error") []
  /\ apply_plain (mk_state (str "1 - 5") []) (str "sqrt")
     = mk_state (str "Error") [].
Proof.
  split; [|split].
  - refine (proj1 (proj2 (failures_become_error no_digit no_math no_math
                            no_math no_math no_math no_pow
                            (mk_state (str "5 / 0") []) (str "=")))
              ZeroDivisionError _).
    vm_compute; reflexivity.
  - refine (proj1 (proj2 (proj2 (failures_become_error no_digit no_math
                                   no_math no_math no_math no_math no_pow
                                   (mk_state (str "()") []) (str "="))))
              VTuple TypeError _ _);
      vm_compute; reflexivity.
  - refine (proj1 (proj2 (proj2 (proj2 (proj2 (proj2
              (failures_become_error no_digit no_math no_math no_math
                 no_math no_math no_pow
                 (mk_state (str "1 - 5") []) (str "sqrt")))))))
              (float_lit (-4)) _ _);
      vm_compute; reflexivity.
Defined.

(** C5 as stated fails: from "0" the token [.] gives the buffer ".", and
    not "0.". *)
Lemma decimal_point_counterexample :
  display (apply_plain initial (str ".")) = str "."
  /\ display (apply_plain initial (str ".")) <> str "0.".
Proof. split; [reflexivity | discriminate]. Qed.

(** The witness of [del_removes_last_character]: [DEL] on "5", on "0" and
    on "12". *)
Lemma del_removes_last_character_witness :
  apply_plain (mk_state (str "5") []) (str "DEL") = mk_state (str "0") []
  /\ apply_plain (mk_state (str "0") []) (str "DEL") = mk_state (str "0") []
  /\ apply_plain (mk_state (str "12") []) (str "del") = mk_state (str "1") [].
Proof.
  split; [|split].
  - apply (del_removes_last_character no_digit no_math no_math no_math
             no_math no_math no_pow (mk_state (str "5") []) (str "DEL")
             [] 53%N); reflexivity.
  - apply (del_removes_last_character no_digit no_math no_math no_math
             no_math no_math no_pow (mk_state (str "0") []) (str "DEL")
             [] 48%N); reflexivity.
  - apply (del_removes_last_character no_digit no_math no_math no_math
             no_math no_math no_pow (mk_state (str "12") []) (str "del")
             (str "1") 50%N); reflexivity.
Defined.

(** The witness of [display_never_empty]: [DEL] on the buffer "5". *)
Lemma display_never_empty_witness :
  display (mk_state (str "5") []) <> []
  /\ display (apply_plain (mk_state (str "5") []) (str "DEL")) <> [].
Proof.
  split; [discriminate|].
  apply (proj1 (display_never_empty no_digit no_math no_math no_math
                  no_math no_math no_pow)).
  discriminate.
Defined.

(** The witness of [letter_x_ends_in_error]: [=] on the buffer "5 x 3". *)
Lemma letter_x_ends_in_error_witness :
  apply_plain (mk_state (str "5") []) (str "x") = mk_state (str "5 x ") []
  /\ apply_plain (mk_state (str "5 x 3") []) (str "=")
     = mk_state (str "Error") [].
Proof.
  split.
  - apply (proj1 (letter_x_ends_in_error no_digit no_math no_math no_math
                    no_math no_math no_pow (mk_state (str "5") []) [] [])).
    discriminate.
  - apply (proj2 (proj2 (letter_x_ends_in_error no_digit no_math no_math
                           no_math no_math no_math no_pow
                           (mk_state (str "5 x 3") []) (str "5") (str "3")))).
    reflexivity.
Defined.

(** The witness of [sqrt_key_rounds_to_8_decimals]: [sqrt] on the buffer
    "5", whose root prints as "2.23606797749979" before the rounding. *)
Lemma sqrt_key_rounds_to_8_decimals_witness :
  apply_plain (mk_state (str "5") []) (str "sqrt")
  = mk_state (str "2.23606798") []
  /\ str_of_float (fsqrt (float_lit 5)) = str "2.23606797749979".
Proof.
  split; [|vm_compute; reflexivity].
  refine (proj1 (proj1 (proj2 (proj2 (proj2 (proj2
            (sqrt_key_rounds_to_8_decimals no_digit no_math no_math no_math
               no_math no_math no_pow)))))
            (mk_state (str "5") []) (float_lit 5) (fsqrt (float_lit 5))
            (float_of_decimal false 223606798 (-8)) _ _ _));
    vm_compute; reflexivity.
Defined.

(** The witness of [equals_prints_and_records]: [=] on the buffer "1 / 3",
    whose value is a float that is not an integer. *)
Lemma equals_prints_and_records_witness :
  py_eval (canonical (str "1 / 3"))
  = Ok (VFloat (S754_finite false 6004799503160661 (-54)))
  /\ exists d,
       apply_plain (mk_state (str "1 / 3") []) (str "=")
       = mk_state d [d].
Proof.
  split; [vm_compute; reflexivity|].
  destruct (proj1 (equals_prints_and_records no_digit no_math no_math
                     no_math no_math no_math no_pow
                     (mk_state (str "1 / 3") [])
                     (VFloat (S754_finite false 6004799503160661 (-54)))
                     eq_refl eq_refl)) as (d & Hd & _).
  exists d. exact Hd.
Defined.

(** C2 as stated fails: the buffer "()" evaluates successfully, to the
    empty tuple, and [=] leaves "Error" and appends nothing. *)
Lemma equals_on_empty_tuple_counterexample :
  py_eval (canonical (str "()")) = Ok VTuple
  /\ run_plain initial [str "("; str ")"] = mk_state (str "()") []
  /\ run_plain initial [str "("; str ")"; str "="]
     = mk_state (str "Error") [].
Proof. split; [|split]; vm_compute; reflexivity. Qed.


(* ================================================================== *)
(** * The operation table: division and remainder *)
(* ================================================================== *)

(** C4, as amended: [div] and [mod] raise [ZeroDivisionError] exactly when
    the divisor is a zero; otherwise [div] returns the float quotient and
    [mod] the host's remainder [a % b], which takes the sign of the
    divisor [b] (and not of the dividend): [mod(-7, 3)] is [2]. *)
Theorem div_mod_zero_divisor (a b : float) :
  (is_zero b = true ->
   div a b = Raise ZeroDivisionError /\ mod_ a b = Raise ZeroDivisionError)
  /\ (is_zero b = false ->
      div a b = Ok (fdiv a b)
      /\ exists r, mod_ a b = Ok r /\ float_rem a b = Ok r)
  /\ (valid a -> valid b ->
      is_finite a = true -> is_nan b = false -> is_zero b = false ->
      exists r, mod_ a b = Ok r /\ sign_bit r = sign_bit b)
  /\ mod_ (float_lit (-7)) (float_lit 3) = Ok (float_lit 2)
  /\ mod_ (float_lit 7) (float_lit (-3)) = Ok (float_lit (-2))
  /\ div (float_lit 20) (float_lit 4) = Ok (float_lit 5).
Proof.
  split; [|split; [|split]].
  - intros Hz. unfold div, mod_. now rewrite Hz.
  - intros Hz. unfold div, mod_, float_truediv. rewrite Hz.
    split; [reflexivity|].
    unfold float_rem. rewrite Hz.
    destruct (negb _); [destruct (xorb _ _)|]; eauto.
  - intros Va Vb Fa Nb Zb. unfold mod_. rewrite Zb.
    now apply float_rem_sign.
  - split; [|split]; vm_compute; reflexivity.
Qed.

(** The witness of [div_mod_zero_divisor]: the remainder of -7 by 3. *)
Lemma div_mod_zero_divisor_witness :
  valid (float_lit (-7)) /\ valid (float_lit 3)
  /\ exists r, mod_ (float_lit (-7)) (float_lit 3) = Ok r
               /\ sign_bit r = sign_bit (float_lit 3).
Proof.
  split; [reflexivity|]. split; [reflexivity|].
  apply (proj1 (proj2 (proj2 (div_mod_zero_divisor (float_lit (-7))
                                (float_lit 3)))));
    reflexivity.
Defined.

(** C4 as stated fails: the remainder of -7 by 3 is 2, which has the sign
    of the divisor and not that of the dividend. *)
Lemma mod_sign_counterexample :
  mod_ (float_lit (-7)) (float_lit 3) = Ok (float_lit 2)
  /\ sign_bit (float_lit 2) = false
  /\ sign_bit (float_lit (-7)) = true.
Proof. split; [|split]; vm_compute; reflexivity. Qed.
